(** * Demo Hunters: the task queue, the [demos] table and the front end

    A shallow embedding of
    - [server/supabase_schema.sql]: the [task_queue] table, its column
      defaults and the PL/pgSQL function [claim_next_task]; the [demos]
      table, its trigger and its policies;
    - [front/src/services/demo.ts]: the [Demo] interface and the calls of
      the API;
    - [front/src/components/demo-form.tsx]: the form and the sign-in modal;
    - [front/src/app/dashboard/page.tsx]: [fetchDemos] and [handleDelete];
    - [front/src/app/page.tsx]: [handleGetStarted]. *)

From stdpp Require Import base option list strings gmap sets sorting.
From Stdlib Require Import ZArith Lia.

Local Open Scope string_scope.
Local Open Scope Z_scope.

(** ** SQL values *)

Module Sql.

(** A UUID is a 128-bit value; only equality of UUIDs is ever used. *)
Definition uuid := N.

(** [TIMESTAMP WITH TIME ZONE]: microseconds since the first instant of
    the year 2000, as PostgreSQL counts them. *)
Definition timestamptz := Z.

(** [INT] is a signed 32-bit integer. *)
Definition int4_min : Z := - 2 ^ 31.
Definition int4_max : Z := 2 ^ 31 - 1.
Definition int4_range (z : Z) : Prop := int4_min <= z <= int4_max.

(** Three-valued logic: a comparison with a NULL operand is NULL, and a
    [WHERE] clause keeps a row only when its condition is true. *)
Definition sql_lt (a b : option Z) : option bool :=
  match a, b with
  | Some x, Some y => Some (x <? y)
  | _, _ => None
  end.

Definition sql_eq_text (a : option string) (b : string) : option bool :=
  match a with
  | Some x => Some (String.eqb x b)
  | None => None
  end.

Definition sql_and (a b : option bool) : option bool :=
  match a, b with
  | Some false, _ | _, Some false => Some false
  | Some true, Some true => Some true
  | _, _ => None
  end.

Definition sql_is_true (c : option bool) : bool :=
  match c with
  | Some true => true
  | _ => false
  end.

(** [x + 1] on a nullable integer. *)
Definition sql_succ (a : option Z) : option Z :=
  match a with
  | Some x => Some (x + 1)
  | None => None
  end.

(** [ORDER BY c ASC]: ascending, and PostgreSQL puts NULLs last. *)
Definition asc_nulls_last (a b : option Z) : bool :=
  match a, b with
  | Some x, Some y => x <=? y
  | Some _, None => true
  | None, Some _ => false
  | None, None => true
  end.

End Sql.

(** ** The [task_queue] table *)

Module TaskQueue.
Import Sql.

(** A value of the row type [task_queue].  The row type itself allows NULL
    in every field (the variable [next_task] of [claim_next_task] is all
    NULL when no row was found); [NOT NULL] and [PRIMARY KEY] are
    constraints on the rows stored in the table, see [table_ok]. *)
Record task_queue : Type := mk_task {
  id : option uuid;
  task_type : option string;
  payload : option string;
  status : option string;
  attempts : option Z;
  max_attempts : option Z;
  error_message : option string;
  created_at : option timestamptz;
  started_at : option timestamptz;
  completed_at : option timestamptz
}.

#[export] Instance task_queue_eq_dec : EqDecision task_queue.
Proof. solve_decision. Defined.

(** The table: its rows in scan order. *)
Abbreviation table := (list task_queue).

(** The row all of whose fields are NULL. *)
Definition null_task : task_queue :=
  mk_task None None None None None None None None None None.

(** [id UUID PRIMARY KEY], [task_type], [payload], [status] [NOT NULL]. *)
Definition not_null_ok (t : task_queue) : Prop :=
  is_Some (id t) ∧ is_Some (task_type t) ∧ is_Some (payload t) ∧
  is_Some (status t).

Definition table_ok (tq : table) : Prop :=
  Forall not_null_ok tq ∧ NoDup (id <$> tq).

(** The [INT] columns hold 32-bit values. *)
Definition int4_ok (t : task_queue) : Prop :=
  (∀ a, attempts t = Some a → int4_range a) ∧
  (∀ m, max_attempts t = Some m → int4_range m).

(** *** [claim_next_task] *)

(** [WHERE status = 'pending' AND attempts < max_attempts]. *)
Definition where_pending (t : task_queue) : bool :=
  sql_is_true
    (sql_and (sql_eq_text (status t) "pending")
             (sql_lt (attempts t) (max_attempts t))).

(** [FOR UPDATE SKIP LOCKED]: a row whose lock is held by another
    transaction is passed over instead of waited for.  [locked] is the set
    of row ids locked by the other transactions. *)
Definition skip_locked (locked : gset uuid) (t : task_queue) : bool :=
  match id t with
  | Some k => bool_decide (k ∉ locked)
  | None => true
  end.

Definition candidate (locked : gset uuid) (t : task_queue) : bool :=
  where_pending t && skip_locked locked t.

(** [ORDER BY created_at ASC LIMIT 1] over the rows that are left: the first
    row in scan order among those with the least [created_at]. *)
Fixpoint order_by_created_at_limit_1 (l : list task_queue) : option task_queue :=
  match l with
  | [] => None
  | t :: l' =>
      match order_by_created_at_limit_1 l' with
      | None => Some t
      | Some u =>
          if asc_nulls_last (created_at t) (created_at u) then Some t
          else Some u
      end
  end.

(** [SELECT * INTO next_task ...]: the row found, or all NULLs. *)
Definition select_into_next_task (locked : gset uuid) (tq : table) : task_queue :=
  default null_task
    (order_by_created_at_limit_1 (List.filter (candidate locked) tq)).

(** [SET status = 'processing', started_at = NOW(), attempts = attempts + 1]. *)
Definition set_processing (now : timestamptz) (t : task_queue) : task_queue :=
  mk_task (id t) (task_type t) (payload t) (Some "processing")
          (sql_succ (attempts t)) (max_attempts t) (error_message t)
          (created_at t) (Some now) (completed_at t).

(** [UPDATE task_queue SET ... WHERE id = k]. *)
Definition update_where_id (now : timestamptz) (k : uuid) (tq : table) : table :=
  (λ t, if bool_decide (id t = Some k) then set_processing now t else t) <$> tq.

(** The function: what it returns and the table it leaves. *)
Definition claim_next_task (locked : gset uuid) (now : timestamptz)
    (tq : table) : task_queue * table :=
  let next_task := select_into_next_task locked tq in
  match id next_task with
  | Some k => (next_task, update_where_id now k tq)
  | None => (next_task, tq)
  end.

(** A series of calls, one after the other; each call comes with the locks
    the other transactions hold at that moment and with its [NOW()].  The
    result lists what the calls returned, in order. *)
Fixpoint claim_calls (calls : list (gset uuid * timestamptz)) (tq : table)
    : list task_queue * table :=
  match calls with
  | [] => ([], tq)
  | (locked, now) :: calls' =>
      let '(r, tq') := claim_next_task locked now tq in
      let '(rs, tq'') := claim_calls calls' tq' in
      (r :: rs, tq'')
  end.

(** *** [INSERT INTO task_queue] and the column defaults *)

(** A column of an [INSERT]: left out (the column default applies) or given
    a value, which may be an explicit NULL. *)
Inductive column (A : Type) : Type :=
  | DEFAULT
  | VALUE (v : option A).
Arguments DEFAULT {A}.
Arguments VALUE {A} v.

Definition or_default {A : Type} (c : column A) (d : option A) : option A :=
  match c with
  | DEFAULT => d
  | VALUE v => v
  end.

Record insert_columns : Type := mk_insert {
  c_id : column uuid;
  c_task_type : column string;
  c_payload : column string;
  c_status : column string;
  c_attempts : column Z;
  c_max_attempts : column Z;
  c_error_message : column string;
  c_created_at : column timestamptz;
  c_started_at : column timestamptz;
  c_completed_at : column timestamptz
}.

(** **** The types of the columns

    The values of the model range over more than the types of the columns:
    an [INSERT] is refused when a value is not of the type of its column. *)

(** [UUID]: 128 bits. *)
Definition uuid_okb (k : uuid) : bool := (k <? 2 ^ 128)%N.

(** [INT]. *)
Definition int4_okb (z : Z) : bool := (int4_min <=? z) && (z <=? int4_max).

(** [TIMESTAMP WITH TIME ZONE]: from Julian day 0 up to, and without, the
    first day of the year 294277, which is Julian day 109203528; the
    count starts at Julian day 2451545.  The least and the greatest 64-bit
    values are ['-infinity'] and ['infinity']. *)
Definition usecs_per_day : Z := 86400000000.
Definition min_timestamp : Z := (0 - 2451545) * usecs_per_day.
Definition end_timestamp : Z := (109203528 - 2451545) * usecs_per_day.

Definition timestamptz_okb (z : timestamptz) : bool :=
  ((min_timestamp <=? z) && (z <? end_timestamp))
  || (z =? - 2 ^ 63) || (z =? 2 ^ 63 - 1).

(** [VARCHAR(n)] counts characters.  In the UTF-8 text of the database a
    character starts at every byte that is not a continuation byte
    [10xxxxxx]. *)
Definition continuation (c : Ascii.ascii) : bool :=
  let n := Ascii.N_of_ascii c in ((128 <=? n) && (n <? 192))%N.

Fixpoint char_length (s : string) : nat :=
  match s with
  | EmptyString => 0%nat
  | String c s' =>
      if continuation c then char_length s' else S (char_length s')
  end.

(** The first [n] characters of a string, and what follows them. *)
Fixpoint split_chars (n : nat) (s : string) : string * string :=
  match s with
  | EmptyString => (EmptyString, EmptyString)
  | String c s' =>
      if continuation c
      then let '(a, b) := split_chars n s' in (String c a, b)
      else match n with
           | O => (EmptyString, s)
           | S n' => let '(a, b) := split_chars n' s' in (String c a, b)
           end
  end.

Fixpoint spaces (s : string) : bool :=
  match s with
  | EmptyString => true
  | String c s' => Ascii.eqb c Ascii.Space && spaces s'
  end.

(** The value stored for a string given to a [VARCHAR(n)] column: a longer
    string is cut to [n] characters when all that is cut off is spaces, and
    is refused otherwise (it is then left as it is here, and [varchar_okb]
    refuses it). *)
Definition varchar (n : nat) (s : string) : string :=
  let '(a, b) := split_chars n s in if spaces b then a else s.

Definition varchar_okb (n : nat) (s : string) : bool :=
  bool_decide (char_length s ≤ n)%nat.

(** The row an [INSERT] builds: [gen_random_uuid()] and [NOW()] are the two
    values the defaults draw from the environment; a column without a
    [DEFAULT] clause defaults to NULL. *)
Definition new_row (gen_random_uuid : uuid) (now : timestamptz)
    (c : insert_columns) : task_queue :=
  mk_task (or_default (c_id c) (Some gen_random_uuid))
          (varchar 100 <$> or_default (c_task_type c) None)
          (or_default (c_payload c) None)
          (varchar 50 <$> or_default (c_status c) (Some "pending"))
          (or_default (c_attempts c) (Some 0))
          (or_default (c_max_attempts c) (Some 3))
          (or_default (c_error_message c) None)
          (or_default (c_created_at c) (Some now))
          (or_default (c_started_at c) None)
          (or_default (c_completed_at c) None).

Definition not_null_okb (t : task_queue) : bool :=
  bool_decide (is_Some (id t)) && bool_decide (is_Some (task_type t)) &&
  bool_decide (is_Some (payload t)) && bool_decide (is_Some (status t)).

(** A NULL is of every type. *)
Definition null_or {A : Type} (ok : A → bool) (v : option A) : bool :=
  from_option ok true v.

(** Every value of the row is of the type of its column.  Whether a text
    is the text of a [JSONB] value is decided by the input function of
    that type, [is_jsonb]. *)
Definition type_okb (is_jsonb : string → bool) (t : task_queue) : bool :=
  null_or uuid_okb (id t) &&
  null_or (varchar_okb 100) (task_type t) &&
  null_or is_jsonb (payload t) &&
  null_or (varchar_okb 50) (status t) &&
  null_or int4_okb (attempts t) &&
  null_or int4_okb (max_attempts t) &&
  null_or timestamptz_okb (created_at t) &&
  null_or timestamptz_okb (started_at t) &&
  null_or timestamptz_okb (completed_at t).

(** The insert is refused when a value is not of the type of its column,
    when a [NOT NULL] column is NULL, or when the primary key is already in
    the table. *)
Definition insert_into_task_queue (is_jsonb : string → bool)
    (gen_random_uuid : uuid) (now : timestamptz)
    (c : insert_columns) (tq : table) : option table :=
  let t := new_row gen_random_uuid now c in
  if type_okb is_jsonb t && not_null_okb t && bool_decide (id t ∉ id <$> tq)
  then Some (tq ++ [t])%list else None.

End TaskQueue.

(** ** Concurrent callers of [claim_next_task] *)

(** Each caller runs the function in a transaction of its own.  The
    statements of the callers interleave; a statement is one step.  The
    [SELECT ... FOR UPDATE] takes the lock of the row it returns, and the
    lock is held until the caller's transaction ends. *)
Module Sessions.
Import Sql TaskQueue.

Inductive pc : Type :=
  | AtSelect
  | AtUpdate
  | AtReturn
  | Returned.

#[export] Instance pc_eq_dec : EqDecision pc.
Proof. solve_decision. Defined.

(** A caller: the statement it stands at, its [NOW()] (the time at which
    its transaction started) and its variable [next_task]. *)
Record session : Type := mk_session {
  s_pc : pc;
  s_now : timestamptz;
  s_next_task : task_queue
}.

(** The table, the row locks with the session that holds each, and the
    callers. *)
Record db : Type := mk_db {
  rows : table;
  row_locks : gmap uuid nat;
  sessions : list session
}.

(** The locks session [i] has to respect. *)
Definition held_by_others (i : nat) (locks : gmap uuid nat) : gmap uuid nat :=
  filter (λ kv, kv.2 ≠ i) locks.

Definition locked_by_others (i : nat) (locks : gmap uuid nat) : gset uuid :=
  dom (held_by_others i locks).

(** The next statement of session [i]: the [SELECT], which locks the row it
    finds; the [UPDATE] under [IF next_task.id IS NOT NULL]; the [RETURN],
    with which the transaction ends and its locks are released. *)
Definition exec (i : nat) (σ : db) : option db :=
  match sessions σ !! i with
  | None => None
  | Some s =>
      match s_pc s with
      | AtSelect =>
          let next_task :=
            select_into_next_task (locked_by_others i (row_locks σ)) (rows σ) in
          let locks' :=
            match id next_task with
            | Some k => <[k := i]> (row_locks σ)
            | None => row_locks σ
            end in
          Some (mk_db (rows σ) locks'
                  (<[i := mk_session AtUpdate (s_now s) next_task]> (sessions σ)))
      | AtUpdate =>
          let rows' :=
            match id (s_next_task s) with
            | Some k => update_where_id (s_now s) k (rows σ)
            | None => rows σ
            end in
          Some (mk_db rows' (row_locks σ)
                  (<[i := mk_session AtReturn (s_now s) (s_next_task s)]> (sessions σ)))
      | AtReturn =>
          Some (mk_db (rows σ) (held_by_others i (row_locks σ))
                  (<[i := mk_session Returned (s_now s) (s_next_task s)]> (sessions σ)))
      | Returned => None
      end
  end.

Inductive step : db → db → Prop :=
  | step_exec (i : nat) (σ σ' : db) : exec i σ = Some σ' → step σ σ'.

(** A schedule names the session that moves at each step. *)
Fixpoint run (schedule : list nat) (σ : db) : option db :=
  match schedule with
  | [] => Some σ
  | i :: schedule' =>
      match exec i σ with
      | Some σ' => run schedule' σ'
      | None => None
      end
  end.

(** Before any caller has started: no lock is held, and every caller is in
    front of its [SELECT] with [next_task] still NULL. *)
Definition fresh_session (s : session) : Prop :=
  s_pc s = AtSelect ∧ s_next_task s = null_task.

Definition initial (σ : db) : Prop :=
  row_locks σ = ∅ ∧ Forall fresh_session (sessions σ).

(** What the caller [i] has received, once its call has returned. *)
Definition received (σ : db) (i : nat) : option task_queue :=
  match sessions σ !! i with
  | Some s => if decide (s_pc s = Returned) then Some (s_next_task s) else None
  | None => None
  end.

(** *** The invariant of the interleavings *)

(** Every row with key [k] has been set to [processing]. *)
Definition claimed_in (tq : table) (k : uuid) : Prop :=
  ∀ t, t ∈ tq → id t = Some k → status t = Some "processing".

(** What a session knows about the row in its [next_task], by the statement
    it stands at. *)
Definition session_inv (σ : db) (i : nat) (s : session) : Prop :=
  match s_pc s with
  | AtSelect => id (s_next_task s) = None
  | AtUpdate =>
      ∀ k, id (s_next_task s) = Some k → row_locks σ !! k = Some i
  | AtReturn =>
      ∀ k, id (s_next_task s) = Some k →
           row_locks σ !! k = Some i ∧ claimed_in (rows σ) k
  | Returned =>
      ∀ k, id (s_next_task s) = Some k → claimed_in (rows σ) k
  end.

Definition exclusive (σ : db) : Prop :=
  ∀ i j si sj k,
    i ≠ j → sessions σ !! i = Some si → sessions σ !! j = Some sj →
    id (s_next_task si) = Some k → id (s_next_task sj) ≠ Some k.

Definition inv (σ : db) : Prop :=
  (∀ i s, sessions σ !! i = Some s → session_inv σ i s) ∧ exclusive σ.

(** *** A claim, from its [SELECT] on *)

(** The same Task: the columns the [UPDATE] leaves alone agree. *)
Definition same_task (r t : task_queue) : Prop :=
  id r = id t ∧ task_type r = task_type t ∧ payload r = payload t ∧
  max_attempts r = max_attempts t ∧ error_message r = error_message t ∧
  created_at r = created_at t ∧ completed_at r = completed_at t.

(** Caller [i], whose [NOW()] is [now], has selected the row [t], which is
    row [idx] of the table and has the key [k].  Until the caller's
    [UPDATE] the row is as it was selected and the caller holds its lock;
    from the [UPDATE] on the row is [set_processing now t]; and the
    caller's [next_task], which is what it returns, is that Task. *)
Definition holds_claim (σ : db) (i idx : nat) (t : task_queue) (k : uuid)
    (now : timestamptz) : Prop :=
  ∃ s, sessions σ !! i = Some s ∧ s_now s = now ∧
       same_task (s_next_task s) t ∧
       match s_pc s with
       | AtSelect => False
       | AtUpdate =>
           rows σ !! idx = Some t ∧ row_locks σ !! k = Some i
       | AtReturn =>
           rows σ !! idx = Some (set_processing now t) ∧
           row_locks σ !! k = Some i
       | Returned =>
           rows σ !! idx = Some (set_processing now t)
       end.

End Sessions.

(** ** The [Demo] interface of [services/demo.ts] *)

Module Demo.

(** The union type of [Demo.status]. *)
Inductive demo_status : Type :=
  | pending
  | recording
  | processing
  | generating
  | sending
  | completed
  | failed.

#[export] Instance demo_status_eq_dec : EqDecision demo_status.
Proof. solve_decision. Defined.

Record Demo : Type := mk_demo {
  id : string;
  user_id : string;
  product_url : string;
  description : option string;
  status : demo_status;
  long_video_url : option string;
  short_video_urls : list string;
  error_message : option string;
  created_at : string;
  updated_at : string
}.

#[export] Instance Demo_eq_dec : EqDecision Demo.
Proof. solve_decision. Defined.

End Demo.

(** ** [DemoForm]: [validateUrl] and [handleSubmit] *)

Module DemoForm.

Definition DEMO_STORAGE_KEY : string := "pending_demo_request".

(** The object [{ url, desc, autoSubmit }] handed to [JSON.stringify]. *)
Record saved_request : Type := mk_saved {
  url : string;
  desc : string;
  autoSubmit : bool
}.

(** [CreateDemoRequest]; [email] is never supplied by the form. *)
Record CreateDemoRequest : Type := mk_request {
  product_url : string;
  description : option string
}.

(** What the handler does, in program order. *)
Inductive action : Type :=
  | setError (message : string)
  | setIsSubmitting (b : bool)
  | localStorage_setItem (key : string) (value : saved_request)
  | localStorage_removeItem (key : string)
  | onAuthRequired
  | createDemo (request : CreateDemoRequest)
  | router_push (path : string).

(** How the promise of [createDemo] settles; [message] is [err.message]. *)
Inductive settled : Type :=
  | resolved (demo : Demo.Demo)
  | rejected (message : option string).

(** JavaScript truthiness of a string, and [a || b] on strings. *)
Definition truthy (s : string) : bool :=
  negb (String.eqb s EmptyString).

Definition or_else (a : option string) (b : string) : string :=
  match a with
  | Some s => if truthy s then s else b
  | None => b
  end.

(** [description || undefined]. *)
Definition or_undefined (s : string) : option string :=
  if truthy s then Some s else None.

Section Component.

(** The constructor [new URL(url)] of the platform: the parsed URL, or
    [None] when it throws. *)
Context {URL_record : Type}.
Variable URL : string → option URL_record.

(** The values the handler closes over: the state of the form and the
    props. *)
Variable productUrl : string.
Variable description : string.
Variable user : option string.

Definition validateUrl (url : string) : bool :=
  match URL url with
  | Some _ => true
  | None => false
  end.

Definition handleSubmit (response : settled) : list action :=
  if negb (truthy productUrl) then
    [setError "Please enter a product URL"]
  else if negb (validateUrl productUrl) then
    [setError "Please enter a valid URL (e.g., https://example.com)"]
  else
    match user with
    | None =>
        [localStorage_setItem DEMO_STORAGE_KEY
           (mk_saved productUrl description true);
         onAuthRequired]
    | Some _ =>
        [setIsSubmitting true; setError EmptyString;
         createDemo (mk_request productUrl (or_undefined description))]
        ++ match response with
           | resolved _ =>
               [localStorage_removeItem DEMO_STORAGE_KEY;
                router_push "/dashboard"]
           | rejected message =>
               [setError
                  (or_else message "Failed to create demo. Please try again.")]
           end
        ++ [setIsSubmitting false]
    end%list.

End Component.

(** The state of the form, and the effect of the handler's setters on it. *)
Record form_state : Type := mk_form {
  f_error : string;
  f_isSubmitting : bool
}.

Definition apply_action (st : form_state) (a : action) : form_state :=
  match a with
  | setError m => mk_form m (f_isSubmitting st)
  | setIsSubmitting b => mk_form (f_error st) b
  | _ => st
  end.

Definition is_createDemo (a : action) : bool :=
  match a with
  | createDemo _ => true
  | _ => false
  end.

End DemoForm.

(** ** The dashboard: [handleDelete] *)

Module Dashboard.
Import Demo.

Inductive action : Type :=
  | confirm (message : string)
  | setDeletingId (v : option string)
  | deleteDemo (demoId : string)
  | setDemos (v : list Demo)
  | alert (message : string).

(** How the promise of [deleteDemo] settles; [message] is [err.message]. *)
Inductive settled : Type :=
  | resolved
  | rejected (message : string).

Section Handler.

(** The list the handler closes over, and what the outside answers. *)
Variable demos : list Demo.
Variable confirmed : bool.
Variable response : settled.

Definition handleDelete (demoId : string) : list action :=
  [confirm "Are you sure you want to delete this demo?"]
  ++ (if negb confirmed then []
      else
        [setDeletingId (Some demoId); deleteDemo demoId]
        ++ match response with
           | resolved =>
               [setDemos (List.filter (λ d, negb (String.eqb (id d) demoId)) demos)]
           | rejected message =>
               [alert (String.append "Failed to delete demo: " message)]
           end
        ++ [setDeletingId None])%list.

End Handler.

(** The state of the page, and the effect of the handler's setters on it. *)
Record page_state : Type := mk_page {
  p_demos : list Demo;
  p_deletingId : option string
}.

Definition apply_action (st : page_state) (a : action) : page_state :=
  match a with
  | setDemos v => mk_page v (p_deletingId st)
  | setDeletingId v => mk_page (p_demos st) v
  | _ => st
  end.

Definition is_setDemos (a : action) : bool :=
  match a with
  | setDemos _ => true
  | _ => false
  end.

End Dashboard.

(** ** Sample data *)

Module Samples.
Import Sql TaskQueue Sessions.

(** Two pending record Tasks, the first the older one. *)
Definition task_a : task_queue :=
  mk_task (Some 1%N) (Some "record") (Some "{}") (Some "pending")
          (Some 0) (Some 3) None (Some 10) None None.

Definition task_b : task_queue :=
  mk_task (Some 2%N) (Some "record") (Some "{}") (Some "pending")
          (Some 2) (Some 3) None (Some 20) None None.

(** A Task that has used up its attempts and failed, and one in progress. *)
Definition task_failed : task_queue :=
  mk_task (Some 3%N) (Some "segment") (Some "{}") (Some "failed")
          (Some 3) (Some 3) (Some "timeout") (Some 5) (Some 6) (Some 7).

Definition task_running : task_queue :=
  mk_task (Some 4%N) (Some "deliver") (Some "{}") (Some "processing")
          (Some 1) (Some 3) None (Some 8) (Some 9) None.

Definition queue_ab : table := [task_a; task_b].
Definition queue_all : table := [task_failed; task_a; task_running; task_b].
Definition queue_idle : table := [task_failed; task_running].

(** Two callers in front of their [SELECT]. *)
Definition two_callers : db :=
  mk_db queue_ab ∅
        [mk_session AtSelect 100 null_task; mk_session AtSelect 101 null_task].

(** The statements of the two callers, interleaved one by one. *)
Definition interleaved : list nat := [0; 1; 0; 1; 0; 1]%nat.

Definition two_callers_done : db :=
  default two_callers (run interleaved two_callers).

(** Three pending Tasks, the oldest last in the table, and three callers;
    the first to move is caller 1, which selects and locks the oldest. *)
Definition task_c : task_queue :=
  mk_task (Some 5%N) (Some "segment") (Some "{}") (Some "pending")
          (Some 1) (Some 3) None (Some 15) None None.

Definition queue_bca : table := [task_b; task_c; task_a].

Definition three_callers : db :=
  mk_db queue_bca ∅
        [mk_session AtSelect 100 null_task; mk_session AtSelect 101 null_task;
         mk_session AtSelect 102 null_task].

Definition three_callers_one_selected : db :=
  default three_callers (run [1%nat] three_callers).

(** An [INSERT] that gives the type and the payload of the Task only. *)
Definition insert_record : insert_columns :=
  mk_insert DEFAULT (VALUE (Some "record")) (VALUE (Some "{}")) DEFAULT
            DEFAULT DEFAULT DEFAULT DEFAULT DEFAULT DEFAULT.

(** An [INSERT] that gives the two counters as well: five attempts made,
    and no bound. *)
Definition insert_given : insert_columns :=
  mk_insert DEFAULT (VALUE (Some "record")) (VALUE (Some "{}")) DEFAULT
            (VALUE (Some 5)) (VALUE None) DEFAULT DEFAULT DEFAULT DEFAULT.

(** A stand-in for the input function of [JSONB]: of all texts it accepts
    the empty object only, which is JSON. *)
Definition only_empty_object (s : string) : bool := String.eqb s "{}".

(** A stand-in for the URL parser: it accepts what starts with a scheme. *)
Definition parse_https (s : string) : option string :=
  if String.prefix "https://" s then Some s else None.

Definition demo1 : Demo.Demo :=
  Demo.mk_demo "d1" "u1" "https://one.example" None Demo.completed
               (Some "long1.mp4") ["a.mp4"] None "t0" "t9".

Definition demo2 : Demo.Demo :=
  Demo.mk_demo "d2" "u1" "https://two.example" None Demo.pending
               None [] None "t1" "t1".

End Samples.

(** ** Series of calls of [claim_next_task] *)

Module QueueRuns.
Import Sql TaskQueue.

(** The rows a series of calls has handed out: the results that are not the
    all-NULL row. *)
Definition handed_out (results : list task_queue) : list task_queue :=
  List.filter (λ r, bool_decide (is_Some (id r))) results.

(** Calls made while no other transaction holds a row lock. *)
Definition unlocked (nows : list timestamptz) : list (gset uuid * timestamptz) :=
  (λ now, (∅, now)) <$> nows.

(** [attempts <= max_attempts], where both are known. *)
Definition attempts_bounded (t : task_queue) : Prop :=
  ∀ a m, attempts t = Some a → max_attempts t = Some m → a <= m.


(** Every row lock is held by a caller that is between its [SELECT] and
    the end of its transaction, on the row in its [next_task]. *)
Definition locks_owned (σ : Sessions.db) : Prop :=
  ∀ k i, Sessions.row_locks σ !! k = Some i →
    ∃ s, Sessions.sessions σ !! i = Some s ∧
         (Sessions.s_pc s = Sessions.AtUpdate ∨
          Sessions.s_pc s = Sessions.AtReturn) ∧
         id (Sessions.s_next_task s) = Some k.

End QueueRuns.

(** ** The [demos] table, its trigger and its policies *)

Module Demos.
Import Sql.

(** A value of the row type [demos]; as for [task_queue], the constraints
    are those of the table, see [demos_ok]. *)
Record demos : Type := mk_demos {
  id : option uuid;
  user_id : option uuid;
  product_url : option string;
  description : option string;
  status : option string;
  long_video_url : option string;
  short_video_urls : option (list string);
  klap_folder_id : option string;
  klap_project_id : option string;
  error_message : option string;
  created_at : option timestamptz;
  updated_at : option timestamptz
}.

#[export] Instance demos_eq_dec : EqDecision demos.
Proof. solve_decision. Defined.

(** [PRIMARY KEY] and [NOT NULL]: [id], [user_id], [product_url],
    [description] and [status]. *)
Definition not_null_ok (r : demos) : Prop :=
  is_Some (id r) ∧ is_Some (user_id r) ∧ is_Some (product_url r) ∧
  is_Some (description r) ∧ is_Some (status r).

Definition demos_ok (tbl : list demos) : Prop :=
  Forall not_null_ok tbl ∧ NoDup (id <$> tbl).

#[export] Instance demos_ok_dec (tbl : list demos) : Decision (demos_ok tbl).
Proof. unfold demos_ok, not_null_ok. apply _. Defined.

(** [update_updated_at_column()]: [NEW.updated_at = NOW(); RETURN NEW]. *)
Definition update_updated_at_column (now : timestamptz) (NEW : demos) : demos :=
  mk_demos (id NEW) (user_id NEW) (product_url NEW) (description NEW)
           (status NEW) (long_video_url NEW) (short_video_urls NEW)
           (klap_folder_id NEW) (klap_project_id NEW) (error_message NEW)
           (created_at NEW) (Some now).

(** [auth.uid() = user_id], the expression of the three policies; [uid] is
    NULL for a request that carries no user. *)
Definition sql_eq_uuid (a b : option uuid) : option bool :=
  match a, b with
  | Some x, Some y => Some (bool_decide (x = y))
  | _, _ => None
  end.

Definition own (uid : option uuid) (r : demos) : bool :=
  sql_is_true (sql_eq_uuid uid (user_id r)).

(** The statements below run for a role that row-level security applies
    to, with [uid] the value of [auth.uid()]. *)

(** [SELECT ... WHERE p]: policy "Users can view own demos",
    [FOR SELECT USING (auth.uid() = user_id)]. *)
Definition select_demos (uid : option uuid) (p : demos → bool)
    (tbl : list demos) : list demos :=
  List.filter (λ r, own uid r && p r) tbl.

(** One row of [UPDATE demos SET ... WHERE p]: policy "Users can update own
    demos", [FOR UPDATE USING (auth.uid() = user_id)].  A row the policy
    hides is not touched.  For a row that is updated the trigger
    [update_demos_updated_at] runs [BEFORE UPDATE], and the new row has to
    pass the expression of the policy again (a policy without [WITH CHECK]
    checks new rows with its [USING] expression); a new row that fails
    aborts the statement. *)
Definition update_row (uid : option uuid) (now : timestamptz)
    (p : demos → bool) (set : demos → demos) (r : demos) : option demos :=
  if own uid r && p r then
    let NEW := update_updated_at_column now (set r) in
    if own uid NEW then Some NEW else None
  else Some r.

(** The statement: every row in turn, then the constraints of the table. *)
Definition update_demos (uid : option uuid) (now : timestamptz)
    (p : demos → bool) (set : demos → demos) (tbl : list demos)
    : option (list demos) :=
  match mapM (update_row uid now p set) tbl with
  | Some tbl' => if decide (demos_ok tbl') then Some tbl' else None
  | None => None
  end.

(** The schema has no policy [FOR DELETE]; with row-level security enabled,
    a statement for which no policy exists sees no row. *)
Definition no_policy (uid : option uuid) (r : demos) : bool := false.

(** [DELETE FROM demos WHERE p]: the rows the statement sees and [p] keeps
    are removed. *)
Definition delete_demos (uid : option uuid) (p : demos → bool)
    (tbl : list demos) : list demos :=
  List.filter (λ r, negb (no_policy uid r && p r)) tbl.

(** [INSERT INTO demos]: the columns with a default are [id], [status],
    [short_video_urls], [created_at] and [updated_at]. *)
Record insert_columns : Type := mk_insert {
  c_id : TaskQueue.column uuid;
  c_user_id : TaskQueue.column uuid;
  c_product_url : TaskQueue.column string;
  c_description : TaskQueue.column string;
  c_status : TaskQueue.column string;
  c_long_video_url : TaskQueue.column string;
  c_short_video_urls : TaskQueue.column (list string);
  c_klap_folder_id : TaskQueue.column string;
  c_klap_project_id : TaskQueue.column string;
  c_error_message : TaskQueue.column string;
  c_created_at : TaskQueue.column timestamptz;
  c_updated_at : TaskQueue.column timestamptz
}.

Definition new_row (gen_random_uuid : uuid) (now : timestamptz)
    (c : insert_columns) : demos :=
  mk_demos (TaskQueue.or_default (c_id c) (Some gen_random_uuid))
           (TaskQueue.or_default (c_user_id c) None)
           (TaskQueue.or_default (c_product_url c) None)
           (TaskQueue.or_default (c_description c) None)
           (TaskQueue.or_default (c_status c) (Some "pending"))
           (TaskQueue.or_default (c_long_video_url c) None)
           (TaskQueue.or_default (c_short_video_urls c) (Some []))
           (TaskQueue.or_default (c_klap_folder_id c) None)
           (TaskQueue.or_default (c_klap_project_id c) None)
           (TaskQueue.or_default (c_error_message c) None)
           (TaskQueue.or_default (c_created_at c) (Some now))
           (TaskQueue.or_default (c_updated_at c) (Some now)).

(** Policy "Users can create own demos",
    [FOR INSERT WITH CHECK (auth.uid() = user_id)]; [user_id] references
    [auth.users(id)], the set [users]. *)
Definition insert_demo (users : gset uuid) (uid : option uuid)
    (gen_random_uuid : uuid) (now : timestamptz) (c : insert_columns)
    (tbl : list demos) : option (list demos) :=
  let r := new_row gen_random_uuid now c in
  if own uid r
     && match user_id r with
        | Some u => bool_decide (u ∈ users)
        | None => true
        end
     && bool_decide (demos_ok (tbl ++ [r]))
  then Some (tbl ++ [r])%list else None.

(** The rows of the table that belong to others than [uid]. *)
Definition of_others (uid : option uuid) (tbl : list demos) : list demos :=
  List.filter (λ r, negb (own uid r)) tbl.

End Demos.

(** ** [services/demo.ts]: the calls of the API *)

Module Services.
Import Demo.

(** [CreateDemoRequest], the body of [POST /api/demo]. *)
Record CreateDemoRequest : Type := mk_request {
  product_url : string;
  description : option string;
  email : option string
}.

(** The argument of [fetch]: the URL and the [method], [headers] and
    [body] of its options. *)
Record fetch_request : Type := mk_fetch {
  f_url : string;
  f_method : string;
  f_headers : list (string * string);
  f_body : option CreateDemoRequest
}.

(** How a [fetch] goes.  [fetch] itself rejects, or gives a response;
    [response.json()] gives the body or rejects.  Of the body of a response
    that is not [ok] only [detail] is read:
    - [not_ok_json detail]: [detail] is a string, or is missing ([None]),
      as it is in a body that is a number, a string or a boolean;
    - [not_ok_json_value detail]: [detail] is another value, either a falsy
      one ([None]: [null], [false], [0]) or a truthy one, an object or an
      array say, of which [new Error] takes the text [String(detail)] (or,
      for an object that cannot be turned into a string, fails with a
      [TypeError], whose message is then the text);
    - [not_ok_json_null message]: the body is [null], and reading
      [error.detail] throws a [TypeError] with this message;
    - [not_ok_json_rejects message]: the body does not parse. *)
Inductive exchange (A : Type) : Type :=
  | fetch_rejects (message : string)
  | ok_json (body : A)
  | ok_json_rejects (message : string)
  | not_ok_json (detail : option string)
  | not_ok_json_value (detail : option string)
  | not_ok_json_null (message : string)
  | not_ok_json_rejects (message : string).
Arguments fetch_rejects {A} message.
Arguments ok_json {A} body.
Arguments ok_json_rejects {A} message.
Arguments not_ok_json {A} detail.
Arguments not_ok_json_value {A} detail.
Arguments not_ok_json_null {A} message.
Arguments not_ok_json_rejects {A} message.

(** The response is there, and is not [ok]. *)
Definition not_ok {A : Type} (x : exchange A) : bool :=
  match x with
  | not_ok_json _ | not_ok_json_value _ | not_ok_json_null _
  | not_ok_json_rejects _ => true
  | fetch_rejects _ | ok_json _ | ok_json_rejects _ => false
  end.

(** How a promise settles; [message] is the message of the [Error]. *)
Inductive settled (A : Type) : Type :=
  | resolved (value : A)
  | rejected (message : string).
Arguments resolved {A} value.
Arguments rejected {A} message.

(** [process.env.DEMO_HUNTERS_API_URL || 'http://localhost:8000']. *)
Definition API_URL (env : option string) : string :=
  DemoForm.or_else env "http://localhost:8000".

(** [session?.access_token] of [supabase.auth.getSession()]: [None] when
    there is no session. *)
Definition getAuthToken (access_token : option string) : settled string :=
  match access_token with
  | Some token =>
      if DemoForm.truthy token then resolved token
      else rejected "Not authenticated"
  | None => rejected "Not authenticated"
  end.

Definition bearer (token : string) : string * string :=
  ("Authorization", String.append "Bearer " token).

(** What a call does: the requests it sends, in order, and how it settles. *)
Definition call (A : Type) : Type := list fetch_request * settled A.

(** The part the four functions share after the [fetch]: a response that
    is not [ok] throws [error.detail || fallback]. *)
Definition after_fetch {A B : Type} (x : exchange A) (fallback : string)
    (on_ok : A → settled B) (on_ok_rejects : string → settled B) : settled B :=
  match x with
  | fetch_rejects message => rejected message
  | ok_json body => on_ok body
  | ok_json_rejects message => on_ok_rejects message
  | not_ok_json detail => rejected (DemoForm.or_else detail fallback)
  | not_ok_json_value detail => rejected (default fallback detail)
  | not_ok_json_null message => rejected message
  | not_ok_json_rejects message => rejected message
  end.

Section Api.

Variable env : option string.
Variable access_token : option string.

Definition createDemo (request : CreateDemoRequest) (x : exchange Demo)
    : call Demo :=
  match getAuthToken access_token with
  | rejected message => ([], rejected message)
  | resolved token =>
      ([mk_fetch (String.append (API_URL env) "/api/demo") "POST"
          [("Content-Type", "application/json"); bearer token]
          (Some request)],
       after_fetch x "Failed to create demo" resolved rejected)
  end.

Definition listDemos (x : exchange (list Demo)) : call (list Demo) :=
  match getAuthToken access_token with
  | rejected message => ([], rejected message)
  | resolved token =>
      ([mk_fetch (String.append (API_URL env) "/api/demos") "GET"
          [bearer token] None],
       after_fetch x "Failed to fetch demos" resolved rejected)
  end.

Definition getDemo (demoId : string) (x : exchange Demo) : call Demo :=
  match getAuthToken access_token with
  | rejected message => ([], rejected message)
  | resolved token =>
      ([mk_fetch (String.append (String.append (API_URL env) "/api/demo/") demoId)
          "GET" [bearer token] None],
       after_fetch x "Failed to fetch demo" resolved rejected)
  end.

(** [deleteDemo] does not read the body of a response that is [ok]. *)
Definition deleteDemo (demoId : string) (x : exchange unit) : call unit :=
  match getAuthToken access_token with
  | rejected message => ([], rejected message)
  | resolved token =>
      ([mk_fetch (String.append (String.append (API_URL env) "/api/demo/") demoId)
          "DELETE" [bearer token] None],
       after_fetch x "Failed to delete demo"
         (λ _, resolved tt) (λ _, resolved tt))
  end.

End Api.

(** The message a call rejects with, if it rejects. *)
Definition rejection {A : Type} (s : settled A) : option string :=
  match s with
  | resolved _ => None
  | rejected message => Some message
  end.

(** The statuses of a demo that is being worked on. *)
Definition in_progress (status : demo_status) : bool :=
  match status with
  | recording | processing | generating | sending => true
  | pending | completed | failed => false
  end.

(** The request the form builds, as the body of the call. *)
Definition of_form (r : DemoForm.CreateDemoRequest) : CreateDemoRequest :=
  mk_request (DemoForm.product_url r) (DemoForm.description r) None.

(** What the handlers see of a call. *)
Definition to_form (s : settled Demo) : DemoForm.settled :=
  match s with
  | resolved demo => DemoForm.resolved demo
  | rejected message => DemoForm.rejected (Some message)
  end.

Definition to_dashboard (s : settled unit) : Dashboard.settled :=
  match s with
  | resolved _ => Dashboard.resolved
  | rejected message => Dashboard.rejected message
  end.

(** [getStatusColor] and [getStatusLabel]; the [default] branches of the
    two [switch]es are not reached by a value of the union type. *)
Definition getStatusColor (status : demo_status) : string :=
  match status with
  | completed => "text-emerald-600 bg-emerald-50"
  | failed => "text-red-600 bg-red-50"
  | pending => "text-amber-600 bg-amber-50"
  | recording | processing | generating | sending => "text-blue-600 bg-blue-50"
  end.

Definition getStatusLabel (status : demo_status) : string :=
  match status with
  | pending => "Waiting in queue"
  | recording => "Recording demo"
  | processing => "Processing video"
  | generating => "Generating shorts"
  | sending => "Sending to email"
  | completed => "Ready"
  | failed => "Failed"
  end.

End Services.

(** ** The handlers with the calls they make *)

Module Flows.
Import Demo.

(** [handleSubmit] with the [createDemo] of [services/demo.ts]: what the
    handler does, and the requests that leave the browser. *)
Definition submit {URL_record : Type} (URL : string → option URL_record)
    (env access_token : option string) (productUrl description : string)
    (user : option string) (x : Services.exchange Demo)
    : list DemoForm.action * list Services.fetch_request :=
  let request :=
    DemoForm.mk_request productUrl (DemoForm.or_undefined description) in
  let c := Services.createDemo env access_token (Services.of_form request) x in
  let trace :=
    DemoForm.handleSubmit URL productUrl description user
      (Services.to_form (snd c)) in
  (trace, if existsb DemoForm.is_createDemo trace then fst c else []).

Definition is_deleteDemo (a : Dashboard.action) : bool :=
  match a with
  | Dashboard.deleteDemo _ => true
  | _ => false
  end.

(** [handleDelete] with the [deleteDemo] of [services/demo.ts]. *)
Definition delete (env access_token : option string) (demos : list Demo)
    (confirmed : bool) (demoId : string) (x : Services.exchange unit)
    : list Dashboard.action * list Services.fetch_request :=
  let c := Services.deleteDemo env access_token demoId x in
  let trace :=
    Dashboard.handleDelete demos confirmed (Services.to_dashboard (snd c)) demoId in
  (trace, if existsb is_deleteDemo trace then fst c else []).

(** [handleGetStarted] of the home page, which the page hands to the form
    as [onAuthRequired]. *)
Inductive home_action : Type :=
  | console_log (message : string)
  | setAuthMode (signup : bool)
  | setShowAuthModal (b : bool).

Definition handleGetStarted (user : option string) : list home_action :=
  match user with
  | Some _ => [console_log "User is logged in, redirect to dashboard"]
  | None => [setAuthMode true; setShowAuthModal true]
  end.

Definition handleSignIn : list home_action :=
  [setAuthMode false; setShowAuthModal true].

(** What the home page does in the course of a [handleSubmit] of its form:
    the form and its [onAuthRequired] are given the same [user]. *)
Definition home_during {URL_record : Type} (URL : string → option URL_record)
    (productUrl description : string) (user : option string)
    (response : DemoForm.settled) : list home_action :=
  flat_map (λ a, match a with
                 | DemoForm.onAuthRequired => handleGetStarted user
                 | _ => []
                 end)
    (DemoForm.handleSubmit URL productUrl description user response).

End Flows.

(** ** [DemoForm]: the other handlers and the two effects *)

Module FormEffects.
Import DemoForm.

(** What is found under [DEMO_STORAGE_KEY].  [getItem] gives nothing (or
    the empty string, which [if (saved)] treats alike); or [JSON.parse]
    throws, or gives a value whose properties cannot be read; or it gives
    an object, of which [url], [desc] and [autoSubmit] are read ([None] for
    a property that is not there). *)
Inductive item : Type :=
  | absent
  | unparsable
  | object (url desc : option string) (autoSubmit : bool).

(** The object [JSON.parse] gives for what [JSON.stringify] made of a
    request. *)
Definition written (r : saved_request) : item :=
  object (Some (url r)) (Some (desc r)) (autoSubmit r).

(** The handlers and effects of the component also set the text fields. *)
Inductive action : Type :=
  | setProductUrl (v : string)
  | setDescription (v : string)
  | setShowExpanded (b : bool)
  | console_error (message : string)
  | act (a : DemoForm.action).

(** [if (v)] on a property that may be missing. *)
Definition present (v : option string) : option string :=
  match v with
  | Some s => if truthy s then Some s else None
  | None => None
  end.

(** The effect that runs when the component mounts. *)
Definition load_saved (saved : item) : list action :=
  match saved with
  | absent => []
  | unparsable => [console_error "Failed to load saved demo request"]
  | object url desc _ =>
      (match present url with
       | Some u => [setProductUrl u; setShowExpanded true]
       | None => []
       end ++
       match present desc with
       | Some d => [setDescription d]
       | None => []
       end)%list
  end.

Section Component.

Context {URL_record : Type}.
Variable URL : string → option URL_record.

(** The state and the props the handlers of one render close over. *)
Variable productUrl : string.
Variable description : string.
Variable showExpanded : bool.
Variable user : option string.

(** The effect that runs when [user] changes; [response] is how the
    [createDemo] of its [handleSubmit] settles. *)
Definition auto_submit (saved : item) (response : settled) : list action :=
  match user with
  | None => []
  | Some _ =>
      match saved with
      | absent => []
      | unparsable => [console_error "Failed to auto-submit demo"]
      | object url _ autoSubmit =>
          match present url with
          | Some u =>
              if autoSubmit then
                act (localStorage_setItem DEMO_STORAGE_KEY
                       (mk_saved u description false))
                :: (act <$> handleSubmit URL productUrl description user response)
              else []
          | None => []
          end
      end
  end.

Definition handleUrlChange (value : string) : list action :=
  ([setProductUrl value; act (setError EmptyString)]
   ++ (if truthy value && negb showExpanded then [setShowExpanded true] else [])
   ++ [act (localStorage_setItem DEMO_STORAGE_KEY
              (mk_saved value description false))])%list.

Definition handleDescriptionChange (value : string) : list action :=
  [setDescription value;
   act (localStorage_setItem DEMO_STORAGE_KEY
          (mk_saved productUrl value false))].

End Component.

(** The state of the component and what is stored under the key. *)
Record state : Type := mk_state {
  s_productUrl : string;
  s_description : string;
  s_showExpanded : bool;
  s_form : form_state;
  s_saved : item
}.

(** [useState('')], [useState(false)] and an empty storage. *)
Definition mounted (saved : item) : state :=
  mk_state EmptyString EmptyString false (mk_form EmptyString false) saved.

Definition apply_action (st : state) (a : action) : state :=
  match a with
  | setProductUrl v =>
      mk_state v (s_description st) (s_showExpanded st) (s_form st) (s_saved st)
  | setDescription v =>
      mk_state (s_productUrl st) v (s_showExpanded st) (s_form st) (s_saved st)
  | setShowExpanded b =>
      mk_state (s_productUrl st) (s_description st) b (s_form st) (s_saved st)
  | console_error _ => st
  | act (localStorage_setItem _ r) =>
      mk_state (s_productUrl st) (s_description st) (s_showExpanded st)
               (s_form st) (written r)
  | act (localStorage_removeItem _) =>
      mk_state (s_productUrl st) (s_description st) (s_showExpanded st)
               (s_form st) absent
  | act a' =>
      mk_state (s_productUrl st) (s_description st) (s_showExpanded st)
               (DemoForm.apply_action (s_form st) a') (s_saved st)
  end.

Definition run (st : state) (tr : list action) : state :=
  foldl apply_action st tr.

(** The calls of [createDemo] in a trace. *)
Definition requests (tr : list action) : list CreateDemoRequest :=
  omap (λ a, match a with
             | act (createDemo r) => Some r
             | _ => None
             end) tr.

End FormEffects.

(** ** The dashboard: [fetchDemos] *)

Module Fetch.
Import Demo.

(** [fetchDemos] also sets the error and the loading flag of the page. *)
Inductive action : Type :=
  | setError (message : string)
  | setLoading (b : bool)
  | act (a : Dashboard.action).

Section Sort.

(** [new Date(s).getTime()]: the time in milliseconds, or [None] for the
    NaN of a date that does not parse. *)
Variable getTime : string → option Z.

(** The comparator
    [(a, b) => new Date(b.created_at).getTime() - new Date(a.created_at).getTime()];
    [None] is NaN. *)
Definition comparator (a b : Demo) : option Z :=
  match getTime (created_at b), getTime (created_at a) with
  | Some tb, Some ta => Some (tb - ta)
  | _, _ => None
  end.

(** [a] stays in front of [b] when the comparator is not positive; [sort]
    takes a NaN for [+0]. *)
Definition stays_before (a b : Demo) : bool :=
  match comparator a b with
  | Some v => v <=? 0
  | None => true
  end.

(** The sorted list the language prescribes for a comparator that is
    consistent, as this one is when every date parses:
    [Array.prototype.sort] is then a stable sort, of which the result is
    the one of the insertion sort below.  When a date does not parse the
    comparator is not consistent, the order is left to the engine, and
    [sort] says nothing about it. *)
Fixpoint insert (a : Demo) (l : list Demo) : list Demo :=
  match l with
  | [] => [a]
  | b :: l' => if stays_before a b then a :: b :: l' else b :: insert a l'
  end.

Definition sort (data : list Demo) : list Demo := foldr insert [] data.

(** Every date of the response parses. *)
Definition dates_parse (data : list Demo) : Prop :=
  Forall (λ d, is_Some (getTime (created_at d))) data.

(** [data.sort(comparator)] as the engine runs it, [Array_sort]: what the
    language fixes of it is the result for a comparator that is
    consistent. *)
Definition sorts_as_prescribed (Array_sort : list Demo → list Demo) : Prop :=
  ∀ data, dates_parse data → Array_sort data = sort data.

(** [response] is how [listDemos()] settles. *)
Definition fetchDemos (Array_sort : list Demo → list Demo)
    (response : Services.settled (list Demo)) : list action :=
  (match response with
   | Services.resolved data =>
       [act (Dashboard.setDemos (Array_sort data)); setError EmptyString]
   | Services.rejected message =>
       [setError (DemoForm.or_else (Some message) "Failed to load demos")]
   end ++ [setLoading false])%list.

(** [b] is not newer than [a]. *)
Definition not_newer (a b : Demo) : Prop :=
  ∃ ta tb, getTime (created_at a) = Some ta ∧
           getTime (created_at b) = Some tb ∧ tb <= ta.

(** The demos created at a given time. *)
Definition created_on (t : Z) (d : Demo) : bool :=
  bool_decide (getTime (created_at d) = Some t).

End Sort.

(** The state of the page. *)
Record page : Type := mk_page {
  p_list : Dashboard.page_state;
  p_error : string;
  p_loading : bool
}.

Definition apply_action (st : page) (a : action) : page :=
  match a with
  | setError m => mk_page (p_list st) m (p_loading st)
  | setLoading b => mk_page (p_list st) (p_error st) b
  | act a' => mk_page (Dashboard.apply_action (p_list st) a') (p_error st) (p_loading st)
  end.

End Fetch.

(** ** [AuthModal]: the validation of the form *)

Module AuthModal.

(** A string of the form, as its UTF-16 code units: the regular expression
    and [length] both work on code units. *)
Abbreviation text := (list N).

(** Regular expressions, as far as [emailRegex] needs them, with the
    words they match. *)
Inductive regex : Type :=
  | Empty
  | Eps
  | Class (p : N → bool)
  | Seq (r1 r2 : regex)
  | Alt (r1 r2 : regex)
  | Star (r : regex).

Inductive matches : regex → text → Prop :=
  | matches_eps : matches Eps []
  | matches_class p c : p c = true → matches (Class p) [c]
  | matches_seq r1 r2 s1 s2 :
      matches r1 s1 → matches r2 s2 → matches (Seq r1 r2) (s1 ++ s2)
  | matches_alt_l r1 r2 s : matches r1 s → matches (Alt r1 r2) s
  | matches_alt_r r1 r2 s : matches r2 s → matches (Alt r1 r2) s
  | matches_star_nil r : matches (Star r) []
  | matches_star_cons r s1 s2 :
      matches r s1 → matches (Star r) s2 → matches (Star r) (s1 ++ s2).

(** [r+]. *)
Definition Plus (r : regex) : regex := Seq r (Star r).

(** Matching by derivatives: [test r s] is [/^r$/.test(s)]. *)
Fixpoint nullable (r : regex) : bool :=
  match r with
  | Empty => false
  | Eps => true
  | Class _ => false
  | Seq r1 r2 => nullable r1 && nullable r2
  | Alt r1 r2 => nullable r1 || nullable r2
  | Star _ => true
  end.

Fixpoint deriv (c : N) (r : regex) : regex :=
  match r with
  | Empty => Empty
  | Eps => Empty
  | Class p => if p c then Eps else Empty
  | Seq r1 r2 =>
      Alt (Seq (deriv c r1) r2) (if nullable r1 then deriv c r2 else Empty)
  | Alt r1 r2 => Alt (deriv c r1) (deriv c r2)
  | Star r => Seq (deriv c r) (Star r)
  end.

Fixpoint test (r : regex) (s : text) : bool :=
  match s with
  | [] => nullable r
  | c :: s' => test (deriv c r) s'
  end.

(** [\s]: the white space and the line terminators of ECMAScript. *)
Definition white_space (c : N) : bool :=
  ((9 <=? c) && (c <=? 13) || (c =? 32) || (c =? 160) || (c =? 5760)
   || (8192 <=? c) && (c <=? 8202) || (c =? 8232) || (c =? 8233)
   || (c =? 8239) || (c =? 8287) || (c =? 12288) || (c =? 65279))%N.

Definition commercial_at : N := 64.
Definition full_stop : N := 46.

(** [[^\s@]]. *)
Definition plain (c : N) : bool :=
  negb (white_space c) && negb (c =? commercial_at)%N.

(** [/^[^\s@]+@[^\s@]+\.[^\s@]+$/]. *)
Definition emailRegex : regex :=
  Seq (Plus (Class plain))
    (Seq (Class (N.eqb commercial_at))
       (Seq (Plus (Class plain))
          (Seq (Class (N.eqb full_stop)) (Plus (Class plain))))).

Definition validateEmail (email : text) : bool := test emailRegex email.

(** [password.length >= 8]. *)
Definition validatePassword (password : text) : bool :=
  (8 <=? length password)%nat.

Inductive mode : Type :=
  | login
  | signup.

#[export] Instance mode_eq_dec : EqDecision mode.
Proof. solve_decision. Defined.

Record formData : Type := mk_formData {
  email : text;
  password : text;
  confirmPassword : text;
  fullName : text
}.

(** [!s] on a string. *)
Definition blank (s : text) : bool :=
  match s with
  | [] => true
  | _ => false
  end.

(** [validateForm]: the errors it hands to [setErrors], and its result,
    [Object.keys(newErrors).length === 0]. *)
Definition validateForm (m : mode) (f : formData) : gmap string string * bool :=
  let newErrors : gmap string string := ∅ in
  let newErrors :=
    if blank (email f) then <["email" := "Email is required"]> newErrors
    else if negb (validateEmail (email f))
    then <["email" := "Please enter a valid email address"]> newErrors
    else newErrors in
  let newErrors :=
    if blank (password f) then <["password" := "Password is required"]> newErrors
    else if bool_decide (m = signup) && negb (validatePassword (password f))
    then <["password" := "Password must be at least 8 characters"]> newErrors
    else newErrors in
  let newErrors :=
    match m with
    | signup =>
        let newErrors :=
          if blank (fullName f)
          then <["fullName" := "Full name is required"]> newErrors
          else newErrors in
        if blank (confirmPassword f)
        then <["confirmPassword" := "Please confirm your password"]> newErrors
        else if negb (bool_decide (password f = confirmPassword f))
        then <["confirmPassword" := "Passwords do not match"]> newErrors
        else newErrors
    | login => newErrors
    end in
  (newErrors, bool_decide (size newErrors = 0%nat)).

(** What [handleSubmit] does: at once, and in the callbacks of its timers. *)
Inductive action : Type :=
  | preventDefault
  | setErrors (newErrors : gmap string string)
  | setIsLoading (b : bool)
  | setSuccessMessage (message : string)
  | onClose
  | setTimeout (callback : list action) (delay : N).

Definition handleSubmit (m : mode) (f : formData) : list action :=
  [preventDefault; setErrors (fst (validateForm m f))]
  ++ (if negb (snd (validateForm m f)) then []
      else
        [setIsLoading true;
         setTimeout
           (setIsLoading false ::
            match m with
            | signup =>
                [setSuccessMessage
                   "Account created successfully! Check your email to verify."]
            | login =>
                [setSuccessMessage "Welcome back!";
                 setTimeout [onClose] 1000]
            end) 1500])%list.

(** When each thing happens, in milliseconds after [start]. *)
Fixpoint timeline (start : N) (a : action) : list (N * action) :=
  match a with
  | setTimeout callback delay => flat_map (timeline (start + delay)) callback
  | _ => [(start, a)]
  end.

End AuthModal.

(** ** More sample data *)

Module MoreSamples.
Import Sql.

(** Two demos of user 10 and one of user 20. *)
Definition row1 : Demos.demos :=
  Demos.mk_demos (Some 1%N) (Some 10%N) (Some "https://one.example") (Some "tour")
    (Some "completed") (Some "long1.mp4") (Some ["a.mp4"]) None None None
    (Some 5) (Some 9).

Definition row2 : Demos.demos :=
  Demos.mk_demos (Some 2%N) (Some 20%N) (Some "https://two.example") (Some "intro")
    (Some "pending") None (Some []) None None None (Some 6) (Some 6).

Definition row3 : Demos.demos :=
  Demos.mk_demos (Some 3%N) (Some 10%N) (Some "https://three.example") (Some "pricing")
    (Some "failed") None (Some []) None None (Some "timeout") (Some 7) (Some 8).

Definition demos_table : list Demos.demos := [row1; row2; row3].

(** [SET description = 'new', updated_at = 0]. *)
Definition set_description (r : Demos.demos) : Demos.demos :=
  Demos.mk_demos (Demos.id r) (Demos.user_id r) (Demos.product_url r) (Some "new")
    (Demos.status r) (Demos.long_video_url r) (Demos.short_video_urls r)
    (Demos.klap_folder_id r) (Demos.klap_project_id r) (Demos.error_message r)
    (Demos.created_at r) (Some 0).

(** [SET user_id = 20]. *)
Definition set_owner_20 (r : Demos.demos) : Demos.demos :=
  Demos.mk_demos (Demos.id r) (Some 20%N) (Demos.product_url r)
    (Demos.description r) (Demos.status r) (Demos.long_video_url r)
    (Demos.short_video_urls r) (Demos.klap_folder_id r)
    (Demos.klap_project_id r) (Demos.error_message r) (Demos.created_at r)
    (Demos.updated_at r).

Definition everywhere (r : Demos.demos) : bool := true.




(** A stand-in for the parsing of dates: the three dates of the samples. *)
Definition time_of (s : string) : option Z :=
  if String.eqb s "t0" then Some 0
  else if String.eqb s "t1" then Some 1
  else if String.eqb s "t2" then Some 1
  else None.

Definition demo3 : Demo.Demo :=
  Demo.mk_demo "d3" "u1" "https://three.example" None Demo.recording
               None [] None "t2" "t2".

(** A form in which a URL and a description have been typed. *)
Definition typed : FormEffects.state :=
  FormEffects.mk_state "https://two.example" "tour" true
    (DemoForm.mk_form EmptyString false) FormEffects.absent.

(** The code units of [a@b.co] and of [a b@c.d]. *)
Definition good_email : AuthModal.text := [97; 64; 98; 46; 99; 111]%N.
Definition bad_email : AuthModal.text := [97; 32; 98; 64; 99; 46; 100]%N.

End MoreSamples.

(** * Properties *)

(** ** The task queue *)

Section TaskQueueFacts.
Import Sql TaskQueue.

Implicit Types (t u : task_queue) (tq : table) (locked : gset uuid).
Implicit Types (now : timestamptz) (k : uuid).

Lemma asc_nulls_last_total (a b : option Z) :
  asc_nulls_last a b = true ∨ asc_nulls_last b a = true.
Proof. destruct a, b; simpl; auto; lia. Qed.

Lemma asc_nulls_last_trans (a b c : option Z) :
  asc_nulls_last a b = true → asc_nulls_last b c = true →
  asc_nulls_last a c = true.
Proof. destruct a, b, c; simpl; auto; try discriminate; lia. Qed.

Lemma asc_nulls_last_false (a b : option Z) :
  asc_nulls_last a b = false → asc_nulls_last b a = true.
Proof. destruct (asc_nulls_last_total a b); congruence. Qed.

Lemma order_by_None (l : list task_queue) :
  order_by_created_at_limit_1 l = None → l = [].
Proof.
  destruct l as [|t l]; [done|]. simpl.
  destruct (order_by_created_at_limit_1 l); [|done].
  by destruct (asc_nulls_last _ _).
Qed.

(** The row [LIMIT 1] keeps is a row of the list and no row of the list
    sorts strictly before it. *)
Lemma order_by_Some (l : list task_queue) t :
  order_by_created_at_limit_1 l = Some t →
  t ∈ l ∧ ∀ u, u ∈ l → asc_nulls_last (created_at t) (created_at u) = true.
Proof.
  revert t. induction l as [|x l IH]; intros t; simpl; [done|].
  destruct (order_by_created_at_limit_1 l) as [b|] eqn:Hb.
  - destruct (IH b eq_refl) as [Hin Hmin].
    destruct (asc_nulls_last (created_at x) (created_at b)) eqn:Hxb;
      intros [= <-]; split.
    + apply list_elem_of_here.
    + intros u [->|Hu]%elem_of_cons.
      * destruct (asc_nulls_last_total (created_at x) (created_at x)); done.
      * eapply asc_nulls_last_trans; [exact Hxb|]. by apply Hmin.
    + by apply list_elem_of_further.
    + intros u [->|Hu]%elem_of_cons.
      * by apply asc_nulls_last_false.
      * by apply Hmin.
  - apply order_by_None in Hb as ->. intros [= <-]. split.
    + apply list_elem_of_here.
    + intros u ->%list_elem_of_singleton.
      destruct (asc_nulls_last_total (created_at x) (created_at x)); done.
Qed.

Lemma elem_of_filter_candidate locked tq t :
  t ∈ List.filter (candidate locked) tq ↔ t ∈ tq ∧ candidate locked t = true.
Proof. rewrite !list_elem_of_In. apply filter_In. Qed.

(** What the [SELECT] leaves in [next_task]. *)
Lemma select_found locked tq :
  (∃ t, t ∈ tq ∧ candidate locked t = true) →
  let t := select_into_next_task locked tq in
  t ∈ tq ∧ candidate locked t = true ∧
  ∀ u, u ∈ tq → candidate locked u = true →
       asc_nulls_last (created_at t) (created_at u) = true.
Proof.
  intros (t0 & Hin0 & Hc0). unfold select_into_next_task.
  destruct (order_by_created_at_limit_1 _) as [t|] eqn:Ho; simpl.
  - apply order_by_Some in Ho as [Hin Hmin].
    apply elem_of_filter_candidate in Hin as [Hin Hc].
    split_and!; [done..|]. intros u Hu Hcu. apply Hmin.
    by apply elem_of_filter_candidate.
  - apply order_by_None in Ho.
    assert (t0 ∈ List.filter (candidate locked) tq) as Hx
      by by apply elem_of_filter_candidate.
    rewrite Ho in Hx. by apply elem_of_nil in Hx.
Qed.

Lemma select_not_found locked tq :
  (∀ t, t ∈ tq → candidate locked t = false) →
  select_into_next_task locked tq = null_task.
Proof.
  intros Hno. unfold select_into_next_task.
  destruct (order_by_created_at_limit_1 _) as [t|] eqn:Ho; [|done].
  apply order_by_Some in Ho as [Hin _].
  apply elem_of_filter_candidate in Hin as [Hin Hc].
  rewrite (Hno t Hin) in Hc. discriminate.
Qed.

(** A row with a key is either the row selected or no candidate was there. *)
Lemma select_id_Some locked tq k :
  id (select_into_next_task locked tq) = Some k →
  select_into_next_task locked tq ∈ tq ∧
  candidate locked (select_into_next_task locked tq) = true.
Proof.
  unfold select_into_next_task.
  destruct (order_by_created_at_limit_1 _) as [t|] eqn:Ho; simpl; [|done].
  intros _. apply order_by_Some in Ho as [Hin _].
  by apply elem_of_filter_candidate in Hin.
Qed.

Lemma where_pending_spec t :
  where_pending t = true ↔
  status t = Some "pending" ∧
  ∃ a m, attempts t = Some a ∧ max_attempts t = Some m ∧ a < m.
Proof.
  unfold where_pending, sql_eq_text, sql_lt. split.
  - destruct (status t) as [s|], (attempts t) as [a|], (max_attempts t) as [m|];
      simpl;
      repeat match goal with
             | |- context [String.eqb ?x ?y] => destruct (String.eqb_spec x y)
             | |- context [?x <? ?y] => destruct (Z.ltb_spec x y)
             end; simpl; try discriminate.
    intros _. subst. eauto 6.
  - intros [-> (a & m & -> & -> & Hlt)]. simpl.
    by rewrite (proj2 (Z.ltb_lt a m) Hlt).
Qed.

Lemma skip_locked_spec locked t k :
  id t = Some k → skip_locked locked t = true ↔ k ∉ locked.
Proof.
  intros Hk. unfold skip_locked. rewrite Hk.
  by rewrite bool_decide_eq_true.
Qed.

Lemma candidate_spec locked t :
  candidate locked t = true ↔
  where_pending t = true ∧ skip_locked locked t = true.
Proof. unfold candidate. by rewrite andb_true_iff. Qed.

(** *** The [UPDATE] *)

Lemma update_where_id_ids now k tq :
  id <$> update_where_id now k tq = id <$> tq.
Proof.
  unfold update_where_id. rewrite <- list_fmap_compose.
  apply list_fmap_ext. intros i t _. simpl. by case_bool_decide.
Qed.

Lemma set_processing_not_null now t :
  not_null_ok t → not_null_ok (set_processing now t).
Proof. intros (? & ? & ? & ?). split_and!; simpl; eauto. Qed.

Lemma update_where_id_table_ok now k tq :
  table_ok tq → table_ok (update_where_id now k tq).
Proof.
  intros [Hnn Hnd]. split; [|by rewrite update_where_id_ids].
  unfold update_where_id. apply Forall_fmap.
  eapply Forall_impl; [exact Hnn|]. intros t Ht. simpl.
  case_bool_decide; [by apply set_processing_not_null | done].
Qed.

(** The primary key names one row. *)
Lemma primary_key_lookup tq i j t u :
  NoDup (id <$> tq) → tq !! i = Some t → tq !! j = Some u →
  id t = id u → i = j.
Proof.
  intros Hnd Hi Hj Hid.
  eapply NoDup_lookup; [exact Hnd| |].
  - rewrite list_lookup_fmap, Hi. reflexivity.
  - rewrite list_lookup_fmap, Hj. simpl. by rewrite Hid.
Qed.

Lemma primary_key_elem tq t u :
  NoDup (id <$> tq) → t ∈ tq → u ∈ tq → id t = id u → t = u.
Proof.
  intros Hnd [i Hi]%list_elem_of_lookup [j Hj]%list_elem_of_lookup Hid.
  assert (i = j) as -> by eauto using primary_key_lookup. congruence.
Qed.

(** With a primary key, the [UPDATE] rewrites one row, in place. *)
Lemma update_where_id_insert now k tq i t :
  NoDup (id <$> tq) → tq !! i = Some t → id t = Some k →
  update_where_id now k tq = <[i := set_processing now t]> tq.
Proof.
  intros Hnd Hi Hk. apply list_eq. intros j. unfold update_where_id.
  rewrite list_lookup_fmap.
  destruct (decide (i = j)) as [<-|Hne].
  - rewrite list_lookup_insert_eq by eauto using lookup_lt_Some.
    rewrite Hi. simpl. by rewrite bool_decide_eq_true_2.
  - rewrite list_lookup_insert_ne by done.
    destruct (tq !! j) as [u|] eqn:Hj; [|done]. simpl.
    case_bool_decide as Hu; [|done].
    exfalso. apply Hne. eapply primary_key_lookup; eauto. congruence.
Qed.

(** A row that is not the one updated stays in the table as it is. *)
Lemma update_where_id_other now k tq t :
  t ∈ tq → id t ≠ Some k → t ∈ update_where_id now k tq.
Proof.
  intros Hin Hne. unfold update_where_id. apply list_elem_of_fmap.
  exists t. split; [|done]. by rewrite bool_decide_eq_false_2.
Qed.

(** The increment stays within [INT]: the row selected has
    [attempts < max_attempts], and [max_attempts] is an [INT]. *)
Lemma claim_next_task_int4 locked now tq :
  table_ok tq → Forall int4_ok tq →
  Forall int4_ok (snd (claim_next_task locked now tq)).
Proof.
  intros [_ Hnd] Hok. unfold claim_next_task.
  destruct (id (select_into_next_task locked tq)) as [k|] eqn:Hk; [|done].
  simpl. destruct (select_id_Some _ _ _ Hk) as [Hin Hc].
  apply candidate_spec in Hc as [Hp _].
  apply where_pending_spec in Hp as (_ & a & m & Ha & Hm & Ham).
  unfold update_where_id. apply Forall_fmap.
  apply Forall_forall. intros u Hu. simpl.
  pose proof (proj1 (Forall_forall _ _) Hok u Hu) as Hu4.
  case_bool_decide as Hid; [|done].
  assert (u = select_into_next_task locked tq) as ->
    by (eapply primary_key_elem; eauto; congruence).
  destruct Hu4 as [Hua Hum]. split; simpl; [|done].
  rewrite Ha. simpl. intros ? [= <-].
  specialize (Hua a Ha). specialize (Hum m Hm).
  unfold int4_range in *. lia.
Qed.

(** A call keeps the constraints of the table. *)
Lemma claim_next_task_table_ok locked now tq :
  table_ok tq → table_ok (snd (claim_next_task locked now tq)).
Proof.
  intros Hok. unfold claim_next_task.
  destruct (id (select_into_next_task locked tq)); simpl; [|done].
  by apply update_where_id_table_ok.
Qed.

(** *** The claims on a single call *)

Lemma queue_ab_ok : table_ok Samples.queue_ab.
Proof.
  split.
  - repeat constructor; simpl; eauto.
  - apply (bool_decide_unpack (NoDup (id <$> Samples.queue_ab))).
    vm_compute. exact I.
Defined.

Lemma queue_all_ok : table_ok Samples.queue_all.
Proof.
  split.
  - repeat constructor; simpl; eauto.
  - apply (bool_decide_unpack (NoDup (id <$> Samples.queue_all))).
    vm_compute. exact I.
Defined.

Lemma queue_idle_not_pending t :
  t ∈ Samples.queue_idle → where_pending t = false.
Proof.
  unfold Samples.queue_idle. rewrite !elem_of_cons, elem_of_nil.
  intros [->|[->|[]]]; reflexivity.
Defined.

Example claim_queue_ab :
  claim_next_task ∅ 100 Samples.queue_ab
  = (Samples.task_a, [set_processing 100 Samples.task_a; Samples.task_b]).
Proof. reflexivity. Qed.

Example claim_queue_all_locked :
  claim_next_task {[1%N]} 100 Samples.queue_all
  = (Samples.task_b,
     [Samples.task_failed; Samples.task_a; Samples.task_running;
      set_processing 100 Samples.task_b]).
Proof. vm_compute. reflexivity. Qed.

Example claim_queue_idle :
  claim_next_task ∅ 100 Samples.queue_idle = (null_task, Samples.queue_idle).
Proof. reflexivity. Qed.

(** C1 fails as it is written, on two counts.  The row returned is the row
    as the [SELECT] read it: its status is still [pending], its [attempts]
    are not incremented and its [started_at] is not set, while the row of
    the table is.  And a pending row whose lock another transaction holds
    is passed over, so that the row claimed need not be the oldest. *)
Lemma claim_next_task_returns_row_before_update :
  where_pending Samples.task_a = true ∧
  fst (claim_next_task ∅ 100 Samples.queue_ab) = Samples.task_a ∧
  status (fst (claim_next_task ∅ 100 Samples.queue_ab)) ≠ Some "processing" ∧
  attempts (fst (claim_next_task ∅ 100 Samples.queue_ab)) ≠ Some 1 ∧
  started_at (fst (claim_next_task ∅ 100 Samples.queue_ab)) ≠ Some 100 ∧
  snd (claim_next_task ∅ 100 Samples.queue_ab)
    = [set_processing 100 Samples.task_a; Samples.task_b] ∧
  asc_nulls_last (created_at Samples.task_b) (created_at Samples.task_a) = false ∧
  fst (claim_next_task {[1%N]} 100 Samples.queue_ab) = Samples.task_b.
Proof. vm_compute. split_and!; try reflexivity; discriminate. Qed.

(** A call on its own: on a table that holds a pending row with
    [attempts < max_attempts] whose lock no other transaction holds, the
    three statements select the oldest such row and rewrite that one row
    in the table. *)
Lemma claim_next_task_alone locked now tq :
  table_ok tq →
  (∃ t, t ∈ tq ∧ where_pending t = true ∧ skip_locked locked t = true) →
  ∃ i t k a,
    tq !! i = Some t ∧ id t = Some k ∧ (k ∉ locked) ∧
    where_pending t = true ∧ attempts t = Some a ∧
    (∀ u, u ∈ tq → where_pending u = true → skip_locked locked u = true →
          asc_nulls_last (created_at t) (created_at u) = true) ∧
    t = select_into_next_task locked tq ∧
    claim_next_task locked now tq = (t, <[i := set_processing now t]> tq) ∧
    attempts (set_processing now t) = Some (a + 1).
Proof.
  intros [Hnn Hnd] (t0 & Hin0 & Hp0 & Hl0).
  destruct (select_found locked tq) as (Hin & Hc & Hmin).
  { exists t0. by rewrite candidate_spec. }
  set (t := select_into_next_task locked tq) in *.
  apply candidate_spec in Hc as [Hp Hl].
  destruct (proj1 (Forall_forall _ _) Hnn t Hin) as ([k Hk] & _).
  pose proof (proj1 (where_pending_spec t) Hp) as (_ & a & m & Ha & _ & _).
  apply list_elem_of_lookup in Hin as [i Hi].
  exists i, t, k, a. split_and!; try done.
  - by apply (skip_locked_spec locked t k Hk).
  - intros u Hu Hpu Hlu. apply Hmin; [done|]. by rewrite candidate_spec.
  - unfold claim_next_task. fold t. rewrite Hk.
    by rewrite (update_where_id_insert now k tq i t).
  - simpl. by rewrite Ha.
Qed.

(** C8.  When the table holds no pending row with
    [attempts < max_attempts], the call leaves the table as it is. *)
Theorem claim_next_task_no_candidate_frame locked now tq :
  (∀ t, t ∈ tq → where_pending t = false) →
  snd (claim_next_task locked now tq) = tq.
Proof.
  intros Hno. unfold claim_next_task.
  rewrite select_not_found; [done|].
  intros t Hin. unfold candidate. by rewrite (Hno t Hin).
Qed.

Lemma claim_next_task_no_candidate_frame_witness :
  snd (claim_next_task {[4%N]} 100 Samples.queue_idle) = Samples.queue_idle.
Proof.
  apply (claim_next_task_no_candidate_frame {[4%N]} 100 Samples.queue_idle).
  exact queue_idle_not_pending.
Defined.

(** The table changes only through the [UPDATE], and the [UPDATE] runs only
    for a row the [SELECT] found. *)
Lemma claim_next_task_changes_only_selected locked now tq :
  snd (claim_next_task locked now tq) ≠ tq →
  fst (claim_next_task locked now tq) ∈ tq ∧
  where_pending (fst (claim_next_task locked now tq)) = true.
Proof.
  unfold claim_next_task.
  destruct (id (select_into_next_task locked tq)) as [k|] eqn:Hk; simpl; [|done].
  intros _. destruct (select_id_Some _ _ _ Hk) as [Hin Hc].
  by apply candidate_spec in Hc as [Hp _].
Qed.

(** A row that is not pending is never returned and is never touched. *)
Lemma claim_next_task_skips locked now tq t :
  table_ok tq → t ∈ tq → where_pending t = false →
  id (fst (claim_next_task locked now tq)) ≠ id t ∧
  t ∈ snd (claim_next_task locked now tq).
Proof.
  intros [Hnn Hnd] Hin Hp.
  destruct (proj1 (Forall_forall _ _) Hnn t Hin) as ([kt Hkt] & _).
  unfold claim_next_task.
  destruct (id (select_into_next_task locked tq)) as [k|] eqn:Hk; simpl.
  - destruct (select_id_Some _ _ _ Hk) as [Hin' Hc].
    apply candidate_spec in Hc as [Hp' _].
    assert (id (select_into_next_task locked tq) ≠ id t) as Hne.
    { intros Heq. assert (select_into_next_task locked tq = t) as Hx
        by (eapply primary_key_elem; eauto).
      rewrite Hx in Hp'. congruence. }
    split; [done|]. apply update_where_id_other; [done|]. congruence.
  - split; [|done]. rewrite Hk, Hkt. done.
Qed.

(** C4.  A row with status [failed] and [attempts >= max_attempts] is
    returned by no later call of [claim_next_task], whatever the number of
    calls, their times and the locks held meanwhile; the calls leave the
    row in the table as it is. *)
Theorem failed_task_never_reclaimed calls tq t a m :
  table_ok tq → t ∈ tq →
  status t = Some "failed" → attempts t = Some a → max_attempts t = Some m →
  m <= a →
  Forall (λ r, id r ≠ id t) (fst (claim_calls calls tq)) ∧
  t ∈ snd (claim_calls calls tq).
Proof.
  intros Hok Hin Hst Ha Hm Hle.
  assert (where_pending t = false) as Hp.
  { destruct (where_pending t) eqn:E; [|done].
    apply where_pending_spec in E as [E _]. congruence. }
  clear Hst Ha Hm Hle. revert tq Hok Hin.
  induction calls as [|[locked now] calls IH]; intros tq Hok Hin; simpl.
  - split; [constructor | done].
  - pose proof (claim_next_task_skips locked now tq t Hok Hin Hp) as [Hne Hin'].
    pose proof (claim_next_task_table_ok locked now tq Hok) as Hok'.
    destruct (claim_next_task locked now tq) as [r tq'] eqn:Hc. simpl in *.
    specialize (IH tq' Hok' Hin').
    destruct (claim_calls calls tq') as [rs tq'']. simpl in *.
    destruct IH as [IH1 IH2]. split; [by constructor | done].
Qed.

Lemma failed_task_never_reclaimed_witness :
  Forall (λ r, id r ≠ id Samples.task_failed)
    (fst (claim_calls [(∅, 100); ({[1%N]}, 200); (∅, 300); (∅, 400)]
            Samples.queue_all)) ∧
  Samples.task_failed ∈
    snd (claim_calls [(∅, 100); ({[1%N]}, 200); (∅, 300); (∅, 400)]
           Samples.queue_all).
Proof.
  apply (failed_task_never_reclaimed
           [(∅, 100); ({[1%N]}, 200); (∅, 300); (∅, 400)]
           Samples.queue_all Samples.task_failed 3 3 queue_all_ok).
  - unfold Samples.queue_all. rewrite !elem_of_cons. auto.
  - reflexivity.
  - reflexivity.
  - reflexivity.
  - lia.
Defined.

Example claim_calls_queue_all :
  id <$> fst (claim_calls [(∅, 100); ({[1%N]}, 200); (∅, 300); (∅, 400)]
                Samples.queue_all)
  = [Some 1%N; Some 2%N; None; None].
Proof. vm_compute. reflexivity. Qed.

End TaskQueueFacts.

(** ** Concurrent callers *)

Section SessionsFacts.
Import Sql TaskQueue Sessions.

Implicit Types (σ : db) (s : session) (i j : nat) (k : uuid).

Lemma inv_initial σ : initial σ → inv σ.
Proof.
  intros [Hl Hs]. split.
  - intros i s Hi.
    destruct (proj1 (Forall_lookup _ _) Hs i s Hi) as [Hpc Hnt].
    unfold session_inv. by rewrite Hpc, Hnt.
  - intros i j si sj k _ Hi _ Hk.
    destruct (proj1 (Forall_lookup _ _) Hs i si Hi) as [_ Hnt].
    by rewrite Hnt in Hk.
Qed.

Lemma held_by_others_lookup i j (locks : gmap uuid nat) k :
  i ≠ j → locks !! k = Some i → held_by_others j locks !! k = Some i.
Proof.
  intros Hne Hk. unfold held_by_others.
  apply map_lookup_filter_Some. done.
Qed.

Lemma locked_by_others_elem i j (locks : gmap uuid nat) k :
  i ≠ j → locks !! k = Some i → k ∈ locked_by_others j locks.
Proof.
  intros Hne Hk. unfold locked_by_others. apply elem_of_dom.
  exists i. by apply held_by_others_lookup.
Qed.

Lemma claimed_in_update now k k' tq :
  claimed_in tq k' → claimed_in (update_where_id now k tq) k'.
Proof.
  intros Hc t' Hin Hid. unfold update_where_id in Hin.
  apply list_elem_of_fmap in Hin as (t & -> & Hin).
  case_bool_decide; [done|]. by apply Hc.
Qed.

Lemma claimed_in_update_same now k tq :
  claimed_in (update_where_id now k tq) k.
Proof.
  intros t' Hin Hid. unfold update_where_id in Hin.
  apply list_elem_of_fmap in Hin as (t & -> & Hin).
  case_bool_decide as Hk; [done|]. done.
Qed.

(** A claimed row is no candidate any more. *)
Lemma claimed_not_candidate locked tq k t :
  claimed_in tq k → t ∈ tq → id t = Some k → candidate locked t = false.
Proof.
  intros Hc Hin Hid. destruct (candidate locked t) eqn:E; [|done].
  apply candidate_spec in E as [[E _]%where_pending_spec _].
  specialize (Hc t Hin Hid). congruence.
Qed.

(** A row locked by another session is no candidate. *)
Lemma locked_not_candidate locked t k :
  id t = Some k → k ∈ locked → candidate locked t = false.
Proof.
  intros Hid Hk. destruct (candidate locked t) eqn:E; [|done].
  apply candidate_spec in E as [_ E].
  by apply (skip_locked_spec locked t k Hid) in E.
Qed.

(** The row a session is about to select is in no other session's hands. *)
Lemma select_not_held σ i j si k :
  inv σ → i ≠ j → sessions σ !! i = Some si →
  id (s_next_task si) = Some k →
  id (select_into_next_task (locked_by_others j (row_locks σ)) (rows σ)) ≠ Some k.
Proof.
  intros [Hs _] Hne Hi Hk Hsel.
  destruct (select_id_Some _ _ _ Hsel) as [Hin Hc].
  specialize (Hs i si Hi). unfold session_inv in Hs.
  assert (row_locks σ !! k = Some i →
          candidate (locked_by_others j (row_locks σ))
            (select_into_next_task (locked_by_others j (row_locks σ)) (rows σ))
          = false) as Hlocked.
  { intros Hl. apply (locked_not_candidate _ _ k); [done|].
    by eapply locked_by_others_elem. }
  destruct (s_pc si).
  - congruence.
  - rewrite Hlocked in Hc; auto. discriminate.
  - destruct (Hs k Hk) as [Hl _]. rewrite Hlocked in Hc; auto. discriminate.
  - rewrite (claimed_not_candidate _ (rows σ) k) in Hc; auto. discriminate.
Qed.

Lemma exclusive_same_next_task σ j sj s' tq locks :
  exclusive σ → sessions σ !! j = Some sj →
  s_next_task s' = s_next_task sj →
  exclusive (mk_db tq locks (<[j := s']> (sessions σ))).
Proof.
  intros Hex Hj Hnt i1 i2 s1 s2 k Hne. simpl.
  intros [(E1 & <- & _)|[Hn1 H1]]%list_lookup_insert_Some
         [(E2 & <- & _)|[Hn2 H2]]%list_lookup_insert_Some.
  - congruence.
  - subst i1. rewrite Hnt. by apply (Hex j i2).
  - subst i2. rewrite Hnt. by apply (Hex i1 j).
  - by apply (Hex i1 i2).
Qed.

(** Every statement keeps the invariant. *)
Lemma inv_exec σ σ' j : inv σ → exec j σ = Some σ' → inv σ'.
Proof.
  intros Hinv. pose proof Hinv as [Hs Hex]. unfold exec.
  destruct (sessions σ !! j) as [sj|] eqn:Hj; [|done].
  pose proof (Hs j sj Hj) as Hsj. unfold session_inv in Hsj.
  destruct (s_pc sj) eqn:Hpc; intros [= <-].
  - (* SELECT *)
    set (nt := select_into_next_task _ _) in *.
    split; simpl.
    + intros i s [(E & <- & _)|[Hn Hi]]%list_lookup_insert_Some; [subst i|].
      * unfold session_inv; simpl. intros k Hk. rewrite Hk.
        apply lookup_insert_eq.
      * specialize (Hs i s Hi). unfold session_inv in *; simpl.
        assert (∀ k, id (s_next_task s) = Some k → id nt ≠ Some k) as Hfresh
          by (intros k Hk; by eapply select_not_held).
        assert (∀ k, id (s_next_task s) = Some k → row_locks σ !! k = Some i →
                     match id nt with
                     | Some k0 => <[k0:=j]> (row_locks σ)
                     | None => row_locks σ
                     end !! k = Some i) as Hkeep.
        { intros k Hk Hl. specialize (Hfresh k Hk).
          destruct (id nt) as [k0|]; [|done].
          rewrite lookup_insert_ne; [done|congruence]. }
        destruct (s_pc s); [done| | |done].
        -- intros k Hk. auto.
        -- intros k Hk. destruct (Hs k Hk). auto.
    + intros i1 i2 s1 s2 k Hne.
      intros [(E1 & <- & _)|[Hn1 H1]]%list_lookup_insert_Some
             [(E2 & <- & _)|[Hn2 H2]]%list_lookup_insert_Some; simpl.
      * congruence.
      * subst i1. intros Hk Hk2. by eapply (select_not_held σ i2 j s2 k).
      * subst i2. intros Hk. by eapply (select_not_held σ i1 j s1 k).
      * by apply (Hex i1 i2).
  - (* UPDATE *)
    split; simpl.
    + intros i s [(E & <- & _)|[Hn Hi]]%list_lookup_insert_Some; [subst i|].
      * unfold session_inv; simpl. intros k Hk. rewrite Hk.
        split; [auto | apply claimed_in_update_same].
      * specialize (Hs i s Hi). unfold session_inv in *; simpl.
        assert (∀ k, claimed_in (rows σ) k →
                     claimed_in match id (s_next_task sj) with
                                | Some k0 => update_where_id (s_now sj) k0 (rows σ)
                                | None => rows σ
                                end k) as Hkeep.
        { intros k Hc. destruct (id (s_next_task sj)); [|done].
          by apply claimed_in_update. }
        destruct (s_pc s); [done|done| |].
        -- intros k Hk. destruct (Hs k Hk). auto.
        -- intros k Hk. auto.
    + by eapply exclusive_same_next_task.
  - (* RETURN, and the end of the transaction *)
    split; simpl.
    + intros i s [(E & <- & _)|[Hn Hi]]%list_lookup_insert_Some; [subst i|].
      * unfold session_inv; simpl. intros k Hk. by destruct (Hsj k Hk).
      * specialize (Hs i s Hi). unfold session_inv in *; simpl.
        destruct (s_pc s); [done| | |done].
        -- intros k Hk. apply held_by_others_lookup; auto.
        -- intros k Hk. destruct (Hs k Hk).
           split; [apply held_by_others_lookup|]; auto.
    + by eapply exclusive_same_next_task.
Qed.

Lemma inv_step σ σ' : inv σ → step σ σ' → inv σ'.
Proof. intros Hinv Hstep. destruct Hstep as [i σ1 σ2 Hexec]. by eapply inv_exec. Qed.

Lemma inv_rtc σ σ' : inv σ → rtc step σ σ' → inv σ'.
Proof. intros Hinv Hrtc. induction Hrtc; eauto using inv_step. Qed.

Lemma run_rtc schedule σ σ' : run schedule σ = Some σ' → rtc step σ σ'.
Proof.
  revert σ. induction schedule as [|i schedule IH]; intros σ; simpl.
  - intros [= ->]. apply rtc_refl.
  - destruct (exec i σ) as [σ1|] eqn:He; [|done].
    intros Hr. eapply rtc_l; [by econstructor | by apply IH].
Qed.

Lemma next_task_exclusive σ0 σ i j si sj k :
  initial σ0 → rtc step σ0 σ →
  i ≠ j → sessions σ !! i = Some si → sessions σ !! j = Some sj →
  id (s_next_task si) = Some k → id (s_next_task sj) ≠ Some k.
Proof.
  intros Hinit Hrtc.
  destruct (inv_rtc σ0 σ (inv_initial σ0 Hinit) Hrtc) as [_ Hex].
  apply Hex.
Qed.

(** C2.  From a state in which no call has started yet, whatever the
    number of callers and however their statements interleave, two callers
    never receive the same row: the rows two calls have returned have
    different keys. *)
Theorem claim_next_task_mutual_exclusion σ0 σ i j ri rj k :
  initial σ0 → rtc step σ0 σ → i ≠ j →
  received σ i = Some ri → received σ j = Some rj →
  id ri = Some k → id rj ≠ Some k.
Proof.
  intros Hinit Hrtc Hne. unfold received.
  destruct (sessions σ !! i) as [si|] eqn:Hi; [|done].
  destruct (sessions σ !! j) as [sj|] eqn:Hj; [|done].
  repeat case_decide; try done. intros [= <-] [= <-].
  by eapply next_task_exclusive.
Qed.

Example two_callers_interleaved :
  received Samples.two_callers_done 0 = Some Samples.task_a ∧
  received Samples.two_callers_done 1 = Some Samples.task_b ∧
  rows Samples.two_callers_done
    = [set_processing 100 Samples.task_a; set_processing 101 Samples.task_b] ∧
  row_locks Samples.two_callers_done = ∅.
Proof. vm_compute. auto. Qed.

Lemma two_callers_initial : initial Samples.two_callers.
Proof. split; [reflexivity|]. repeat constructor. Defined.

Lemma two_callers_run :
  run Samples.interleaved Samples.two_callers = Some Samples.two_callers_done.
Proof. vm_compute. reflexivity. Defined.

Lemma claim_next_task_mutual_exclusion_witness :
  initial Samples.two_callers ∧
  received Samples.two_callers_done 0 = Some Samples.task_a ∧
  received Samples.two_callers_done 1 = Some Samples.task_b ∧
  id Samples.task_b ≠ Some 1%N.
Proof.
  split_and!; [exact two_callers_initial | vm_compute; reflexivity..|].
  apply (claim_next_task_mutual_exclusion Samples.two_callers
           Samples.two_callers_done 0 1 Samples.task_a Samples.task_b 1%N
           two_callers_initial).
  - exact (run_rtc _ _ _ two_callers_run).
  - lia.
  - vm_compute. reflexivity.
  - vm_compute. reflexivity.
  - reflexivity.
Defined.

(** *** A claim is atomic *)

Lemma exec_ids σ σ' j : exec j σ = Some σ' → id <$> rows σ' = id <$> rows σ.
Proof.
  unfold exec. destruct (sessions σ !! j) as [sj|]; [|done].
  destruct (s_pc sj); intros [= <-]; simpl; try done.
  destruct (id (s_next_task sj)); [|done]. apply update_where_id_ids.
Qed.

Lemma exec_table_ok σ σ' j :
  table_ok (rows σ) → exec j σ = Some σ' → table_ok (rows σ').
Proof.
  unfold exec. destruct (sessions σ !! j) as [sj|]; [|done].
  destruct (s_pc sj); intros Hok [= <-]; simpl; try done.
  destruct (id (s_next_task sj)); [|done]. by apply update_where_id_table_ok.
Qed.

Lemma rtc_table_ok σ σ' :
  table_ok (rows σ) → rtc step σ σ' → table_ok (rows σ').
Proof.
  intros Hok Hrtc. induction Hrtc as [|x y z [j σ1 σ2 Hexec] _ IH]; [done|].
  apply IH. by eapply exec_table_ok.
Qed.

(** An [UPDATE] by another key leaves the row where it is, as it is. *)
Lemma update_where_id_lookup_ne now k tq idx r :
  tq !! idx = Some r → id r ≠ Some k →
  update_where_id now k tq !! idx = Some r.
Proof.
  intros Hr Hne. unfold update_where_id. rewrite list_lookup_fmap, Hr. simpl.
  by rewrite bool_decide_eq_false_2.
Qed.

(** No statement of any caller breaks a claim: the caller's own [UPDATE]
    turns the selected row into the claimed one, and no statement of
    another caller touches the row or its lock. *)
Lemma holds_claim_exec σ σ' i j idx t k now :
  inv σ → NoDup (id <$> rows σ) → id t = Some k →
  holds_claim σ i idx t k now → exec j σ = Some σ' →
  holds_claim σ' i idx t k now.
Proof.
  intros Hinv Hnd Hk (s & Hi & Hnow & Hsame & Hpc) Hexec.
  assert (id (s_next_task s) = Some k) as Hntk
    by (destruct Hsame as [-> _]; done).
  assert (i < length (sessions σ))%nat as Hlen by eauto using lookup_lt_Some.
  unfold exec in Hexec.
  destruct (sessions σ !! j) as [sj|] eqn:Hj; [|done].
  destruct (decide (j = i)) as [->|Hne].
  - assert (sj = s) as -> by congruence.
    destruct (s_pc s) eqn:Hpcs; [done| | |done];
      injection Hexec as <-; unfold holds_claim; simpl;
      eexists; (split; [by apply list_lookup_insert_eq|]); simpl;
      (split; [done|]); (split; [done|]).
    + destruct Hpc as [Hrow Hlock]. rewrite Hntk, Hnow. split; [|done].
      rewrite (update_where_id_insert now k (rows σ) idx t) by done.
      apply list_lookup_insert_eq. eauto using lookup_lt_Some.
    + by destruct Hpc.
  - assert (id (s_next_task sj) ≠ Some k) as Hother.
    { destruct Hinv as [_ Hex]. apply (Hex i j s sj k); auto. }
    assert (sessions σ' !! i = Some s ∧
            (∀ r, id r = Some k → rows σ !! idx = Some r →
                  rows σ' !! idx = Some r) ∧
            (row_locks σ !! k = Some i → row_locks σ' !! k = Some i))
      as (Hi' & Hrows & Hlocks).
    { destruct (s_pc sj) eqn:Hpcj; [| | |done];
        injection Hexec as <-; simpl;
        (split; [by rewrite list_lookup_insert_ne|]).
      - split; [done|]. intros Hl.
        pose proof (select_not_held σ i j s k Hinv ltac:(auto) Hi Hntk) as Hsel.
        destruct (id (select_into_next_task _ _)) as [k0|]; [|done].
        rewrite lookup_insert_ne; [done|congruence].
      - split; [|done]. intros r Hr Hrow.
        destruct (id (s_next_task sj)) as [k0|]; [|done].
        apply update_where_id_lookup_ne; [done|congruence].
      - split; [done|]. intros Hl. apply held_by_others_lookup; auto. }
    exists s. split; [done|]. split; [done|]. split; [done|].
    destruct (s_pc s); [done| | |].
    + destruct Hpc as [Hrow Hlock]. split; [by apply Hrows | by apply Hlocks].
    + destruct Hpc as [Hrow Hlock]. split; [by apply Hrows | by apply Hlocks].
    + by apply Hrows.
Qed.

Lemma holds_claim_rtc σ σ' i idx t k now :
  inv σ → NoDup (id <$> rows σ) → id t = Some k →
  holds_claim σ i idx t k now → rtc step σ σ' →
  inv σ' ∧ holds_claim σ' i idx t k now.
Proof.
  intros Hinv Hnd Hk Hc Hrtc.
  induction Hrtc as [|x y z [j σ1 σ2 Hexec] _ IH]; [done|].
  apply IH.
  - by eapply inv_exec.
  - by rewrite (exec_ids _ _ _ Hexec).
  - by eapply holds_claim_exec.
Qed.

(** C1, as amended.  A caller stands in front of its [SELECT], after any
    number of statements of any number of callers, and the table holds a
    pending row with [attempts < max_attempts] whose lock no other caller
    holds.  Then the call selects the oldest such row (least [created_at],
    NULLs last) and claims it atomically: run on its own, the function
    rewrites that one row to status [processing], with [started_at] the
    time of the call and [attempts] one more, and returns that Task; and
    however the statements of the other callers fall between those of the
    call, the row stays as it was selected, locked by the caller, until the
    caller's [UPDATE], and is the claimed row from then on, no other caller
    is handed the row, and what the caller receives is that Task. *)
Theorem claim_next_task_claims_oldest σ0 σ i s :
  initial σ0 → table_ok (rows σ0) → rtc step σ0 σ →
  sessions σ !! i = Some s → s_pc s = AtSelect →
  (∃ t, t ∈ rows σ ∧ where_pending t = true ∧
        skip_locked (locked_by_others i (row_locks σ)) t = true) →
  let locked := locked_by_others i (row_locks σ) in
  let now := s_now s in
  ∃ idx t k a σ1,
    rows σ !! idx = Some t ∧ id t = Some k ∧ (k ∉ locked) ∧
    where_pending t = true ∧ attempts t = Some a ∧
    (∀ u, u ∈ rows σ → where_pending u = true → skip_locked locked u = true →
          asc_nulls_last (created_at t) (created_at u) = true) ∧
    status (set_processing now t) = Some "processing" ∧
    started_at (set_processing now t) = Some now ∧
    attempts (set_processing now t) = Some (a + 1) ∧
    same_task (fst (claim_next_task locked now (rows σ))) t ∧
    snd (claim_next_task locked now (rows σ))
      = <[idx := set_processing now t]> (rows σ) ∧
    exec i σ = Some σ1 ∧
    ∀ σ', rtc step σ1 σ' →
      holds_claim σ' i idx t k now ∧
      (∀ j sj, j ≠ i → sessions σ' !! j = Some sj →
               id (s_next_task sj) ≠ Some k) ∧
      (∀ r, received σ' i = Some r →
            same_task r t ∧
            rows σ' !! idx = Some (set_processing now t)).
Proof.
  intros Hinit Hok0 Hrtc Hi Hpc Hex locked now.
  pose proof (inv_rtc _ _ (inv_initial _ Hinit) Hrtc) as Hinv.
  pose proof (rtc_table_ok _ _ Hok0 Hrtc) as Hok.
  destruct (claim_next_task_alone locked now (rows σ) Hok Hex)
    as (idx & t & k & a & Hidx & Hk & Hunl & Hp & Ha & Hmin & Hsel & Hclaim & Ha').
  assert (i < length (sessions σ))%nat as Hlen by eauto using lookup_lt_Some.
  set (σ1 := mk_db (rows σ) (<[k := i]> (row_locks σ))
               (<[i := mk_session AtUpdate now t]> (sessions σ))).
  assert (exec i σ = Some σ1) as Hexec.
  { unfold exec. rewrite Hi, Hpc. fold locked. rewrite <- Hsel, Hk. done. }
  exists idx, t, k, a, σ1. split_and!; try done.
  - by rewrite Hclaim.
  - by rewrite Hclaim.
  - intros σ' Hrtc'.
    destruct (holds_claim_rtc σ1 σ' i idx t k now) as [Hinv' Hc]; try done.
    + by eapply inv_exec.
    + by destruct Hok.
    + exists (mk_session AtUpdate now t). simpl.
      split; [by apply list_lookup_insert_eq|]. split; [done|].
      split; [done|]. split; [done | apply lookup_insert_eq].
    + split; [done|]. destruct Hc as (s' & Hi' & Hnow' & Hsame & Hpc').
      split.
      * intros j sj Hne Hj. destruct Hinv' as [_ Hexcl].
        apply (Hexcl i j s' sj k); auto.
        destruct Hsame as [-> _]. done.
      * intros r. unfold received. rewrite Hi'.
        case_decide as Hret; [|done]. intros [= <-]. split; [done|].
        by rewrite Hret in Hpc'.
Qed.

Lemma three_callers_initial : initial Samples.three_callers.
Proof. split; [reflexivity|]. repeat constructor. Defined.

Lemma queue_bca_ok : table_ok Samples.queue_bca.
Proof.
  split.
  - repeat constructor; simpl; eauto.
  - apply (bool_decide_unpack (NoDup (id <$> Samples.queue_bca))).
    vm_compute. exact I.
Defined.

Lemma three_callers_run :
  run [1%nat] Samples.three_callers = Some Samples.three_callers_one_selected.
Proof. vm_compute. reflexivity. Defined.

(** Caller 1 holds the lock of the oldest row; two pending rows are left to
    caller 0, and the older of them is the second row of the table. *)
Lemma claim_next_task_claims_oldest_witness :
  locked_by_others 0 (row_locks Samples.three_callers_one_selected) = {[1%N]} ∧
  List.filter (candidate {[1%N]}) (rows Samples.three_callers_one_selected)
    = [Samples.task_b; Samples.task_c] ∧
  (λ σ', id <$> received σ' 0)
    <$> run [0; 2; 0; 1; 2; 0; 1; 2]%nat Samples.three_callers_one_selected
    = Some (Some (id Samples.task_c)) ∧
  ∃ idx t k a σ1,
    rows Samples.three_callers_one_selected !! idx = Some t ∧ id t = Some k ∧
    (k ∉ locked_by_others 0 (row_locks Samples.three_callers_one_selected)) ∧
    where_pending t = true ∧ attempts t = Some a ∧
    (∀ u, u ∈ rows Samples.three_callers_one_selected →
          where_pending u = true →
          skip_locked
            (locked_by_others 0 (row_locks Samples.three_callers_one_selected))
            u = true →
          asc_nulls_last (created_at t) (created_at u) = true) ∧
    status (set_processing 100 t) = Some "processing" ∧
    started_at (set_processing 100 t) = Some 100 ∧
    attempts (set_processing 100 t) = Some (a + 1) ∧
    same_task
      (fst (claim_next_task
              (locked_by_others 0 (row_locks Samples.three_callers_one_selected))
              100 (rows Samples.three_callers_one_selected))) t ∧
    snd (claim_next_task
           (locked_by_others 0 (row_locks Samples.three_callers_one_selected))
           100 (rows Samples.three_callers_one_selected))
      = <[idx := set_processing 100 t]>
          (rows Samples.three_callers_one_selected) ∧
    exec 0 Samples.three_callers_one_selected = Some σ1 ∧
    ∀ σ', rtc step σ1 σ' →
      holds_claim σ' 0 idx t k 100 ∧
      (∀ j sj, j ≠ 0%nat → sessions σ' !! j = Some sj →
               id (s_next_task sj) ≠ Some k) ∧
      (∀ r, received σ' 0 = Some r →
            same_task r t ∧
            rows σ' !! idx = Some (set_processing 100 t)).
Proof.
  split; [vm_compute; reflexivity|].
  split; [vm_compute; reflexivity|].
  split; [vm_compute; reflexivity|].
  apply (claim_next_task_claims_oldest Samples.three_callers
           Samples.three_callers_one_selected 0
           (mk_session AtSelect 100 null_task)
           three_callers_initial queue_bca_ok
           (run_rtc _ _ _ three_callers_run)).
  - reflexivity.
  - reflexivity.
  - exists Samples.task_c. split_and!.
    + change (Samples.task_c ∈ Samples.queue_bca).
      unfold Samples.queue_bca. rewrite !elem_of_cons. auto.
    + reflexivity.
    + vm_compute. reflexivity.
Defined.

(** No statement of the function waits: a caller that has not returned can
    always take its next step, whatever locks the others hold. *)
Lemma exec_never_blocks σ i s :
  sessions σ !! i = Some s → s_pc s ≠ Returned → is_Some (exec i σ).
Proof.
  intros Hi Hpc. unfold exec. rewrite Hi.
  destruct (s_pc s); [eauto..|done].
Qed.

(** C6.  When the table holds no pending row with
    [attempts < max_attempts], the call returns the all-NULL row, whatever
    locks other transactions hold; and it does so without waiting: in the
    interleaved execution the [SELECT] of the caller completes at once,
    with [next_task] NULL and no lock taken. *)
Theorem claim_next_task_returns_none tq :
  (∀ t, t ∈ tq → where_pending t = false) →
  (∀ locked now, fst (claim_next_task locked now tq) = null_task) ∧
  (∀ σ i s,
     rows σ = tq → sessions σ !! i = Some s → s_pc s = AtSelect →
     exec i σ =
       Some (mk_db tq (row_locks σ)
               (<[i := mk_session AtUpdate (s_now s) null_task]> (sessions σ)))).
Proof.
  intros Hno.
  assert (∀ locked, select_into_next_task locked tq = null_task) as Hsel.
  { intros locked. apply select_not_found.
    intros t Hin. unfold candidate. by rewrite (Hno t Hin). }
  split.
  - intros locked now. unfold claim_next_task. by rewrite Hsel.
  - intros σ i s <- Hi Hpc. unfold exec. by rewrite Hi, Hpc, Hsel.
Qed.

Lemma claim_next_task_returns_none_witness :
  (∀ locked now, fst (claim_next_task locked now Samples.queue_idle) = null_task) ∧
  (∀ σ i s,
     rows σ = Samples.queue_idle → sessions σ !! i = Some s →
     s_pc s = AtSelect →
     exec i σ =
       Some (mk_db Samples.queue_idle (row_locks σ)
               (<[i := mk_session AtUpdate (s_now s) null_task]> (sessions σ)))).
Proof.
  apply (claim_next_task_returns_none Samples.queue_idle).
  exact queue_idle_not_pending.
Defined.

End SessionsFacts.

(** ** The column defaults *)

Section InsertFacts.
Import Sql TaskQueue.

Lemma not_null_okb_spec (t : task_queue) : not_null_okb t = true ↔ not_null_ok t.
Proof.
  unfold not_null_okb, not_null_ok.
  rewrite !andb_true_iff, !bool_decide_eq_true. tauto.
Qed.

Lemma insert_into_task_queue_Some is_jsonb gen_random_uuid now c tq tq' :
  insert_into_task_queue is_jsonb gen_random_uuid now c tq = Some tq' →
  tq' = (tq ++ [new_row gen_random_uuid now c])%list ∧
  type_okb is_jsonb (new_row gen_random_uuid now c) = true ∧
  not_null_ok (new_row gen_random_uuid now c) ∧
  id (new_row gen_random_uuid now c) ∉ id <$> tq.
Proof.
  unfold insert_into_task_queue.
  destruct (type_okb _ _) eqn:Hty; simpl; [|done].
  destruct (not_null_okb _) eqn:Hnn; simpl; [|done].
  case_bool_decide as Hfresh; simpl; [|done].
  intros [= <-]. split_and!; [done|done| |done].
  by apply not_null_okb_spec.
Qed.

(** C7, as amended.  A Task created by an [INSERT] that gives no value for
    [attempts] starts with [attempts = 0], and a Task created by an
    [INSERT] that gives no value for [max_attempts] has [max_attempts = 3]:
    the new Task is the last row of the table and carries the defaults of
    the columns left out. *)
Theorem new_task_attempts_defaults (is_jsonb : string → bool)
    (gen_random_uuid : uuid) (now : timestamptz)
    (c : insert_columns) (tq tq' : table) :
  insert_into_task_queue is_jsonb gen_random_uuid now c tq = Some tq' →
  ∃ t, tq' = (tq ++ [t])%list ∧
       (c_attempts c = DEFAULT → attempts t = Some 0) ∧
       (c_max_attempts c = DEFAULT → max_attempts t = Some 3).
Proof.
  intros (-> & _)%insert_into_task_queue_Some.
  exists (new_row gen_random_uuid now c). split; [done|].
  unfold new_row; simpl. split; by intros ->.
Qed.

Lemma new_task_attempts_defaults_witness :
  insert_into_task_queue Samples.only_empty_object 7%N 50
    Samples.insert_record Samples.queue_ab
  = Some [Samples.task_a; Samples.task_b;
          mk_task (Some 7%N) (Some "record") (Some "{}") (Some "pending")
                  (Some 0) (Some 3) None (Some 50) None None] ∧
  ∃ t, [Samples.task_a; Samples.task_b;
        mk_task (Some 7%N) (Some "record") (Some "{}") (Some "pending")
                (Some 0) (Some 3) None (Some 50) None None]
       = (Samples.queue_ab ++ [t])%list ∧
       (c_attempts Samples.insert_record = DEFAULT → attempts t = Some 0) ∧
       (c_max_attempts Samples.insert_record = DEFAULT →
        max_attempts t = Some 3).
Proof.
  split; [vm_compute; reflexivity|].
  apply (new_task_attempts_defaults Samples.only_empty_object 7%N 50
           Samples.insert_record Samples.queue_ab).
  vm_compute. reflexivity.
Defined.

(** C7, as the specification has it, fails: the table takes the two
    counters from the [INSERT] when it gives them, so that a new Task can
    start with five attempts and no bound. *)
Lemma new_task_attempts_given :
  insert_into_task_queue Samples.only_empty_object 7%N 50
    Samples.insert_given Samples.queue_ab
  = Some [Samples.task_a; Samples.task_b;
          mk_task (Some 7%N) (Some "record") (Some "{}") (Some "pending")
                  (Some 5) None None (Some 50) None None] ∧
  attempts (new_row 7%N 50 Samples.insert_given) ≠ Some 0 ∧
  max_attempts (new_row 7%N 50 Samples.insert_given) ≠ Some 3.
Proof. split; [vm_compute; reflexivity|]. split; discriminate. Qed.

Example insert_record_row :
  insert_into_task_queue Samples.only_empty_object 7%N 50
    Samples.insert_record []
  = Some [mk_task (Some 7%N) (Some "record") (Some "{}") (Some "pending")
            (Some 0) (Some 3) None (Some 50) None None].
Proof. vm_compute. reflexivity. Qed.

(** An explicit NULL for a [NOT NULL] column, or a key already there, is
    refused. *)
Example insert_refused :
  insert_into_task_queue Samples.only_empty_object 7%N 50
    (mk_insert DEFAULT DEFAULT (VALUE (Some "{}")) DEFAULT DEFAULT DEFAULT
               DEFAULT DEFAULT DEFAULT DEFAULT) [] = None ∧
  insert_into_task_queue Samples.only_empty_object 1%N 50
    Samples.insert_record Samples.queue_ab = None.
Proof. vm_compute. auto. Qed.

(** A value that is not of the type of its column is refused, whatever
    the texts [JSONB] takes: a payload that is not JSON, an [INT] beyond 32
    bits, a status of more than fifty characters.  Spaces beyond the
    fiftieth character are cut off instead. *)
Example insert_ill_typed (is_jsonb : string → bool) :
  is_jsonb "oops" = false →
  insert_into_task_queue is_jsonb 7%N 50
    (mk_insert DEFAULT (VALUE (Some "record")) (VALUE (Some "oops")) DEFAULT
               DEFAULT DEFAULT DEFAULT DEFAULT DEFAULT DEFAULT) [] = None.
Proof.
  intros H. unfold insert_into_task_queue, type_okb. simpl. by rewrite H.
Qed.

Example insert_out_of_range :
  insert_into_task_queue Samples.only_empty_object 7%N 50
    (mk_insert DEFAULT (VALUE (Some "record")) (VALUE (Some "{}")) DEFAULT
               (VALUE (Some (2 ^ 31))) DEFAULT DEFAULT DEFAULT DEFAULT DEFAULT)
    [] = None ∧
  insert_into_task_queue Samples.only_empty_object 7%N 50
    (mk_insert DEFAULT (VALUE (Some "record")) (VALUE (Some "{}"))
               (VALUE (Some
                  "012345678901234567890123456789012345678901234567890"))
               DEFAULT DEFAULT DEFAULT DEFAULT DEFAULT DEFAULT)
    [] = None ∧
  status (new_row 7%N 50
    (mk_insert DEFAULT (VALUE (Some "record")) (VALUE (Some "{}"))
               (VALUE (Some
                  "01234567890123456789012345678901234567890123456789  "))
               DEFAULT DEFAULT DEFAULT DEFAULT DEFAULT DEFAULT))
  = Some "01234567890123456789012345678901234567890123456789".
Proof. vm_compute. auto. Qed.

End InsertFacts.

(** ** The front end *)

Section DemoFormFacts.
Import DemoForm.

Context {URL_record : Type}.
Variable URL : string → option URL_record.

Lemma truthy_spec (s : string) : truthy s = true ↔ s ≠ EmptyString.
Proof.
  unfold truthy. destruct (String.eqb_spec s EmptyString); simpl; split;
    congruence.
Qed.

Lemma validateUrl_spec (u : string) : validateUrl URL u = true ↔ is_Some (URL u).
Proof.
  unfold validateUrl. destruct (URL u); simpl; split; eauto.
  - discriminate.
  - intros [? [=]].
Qed.

(** C9.  [handleSubmit] calls [createDemo] only when [productUrl] is not
    empty and [new URL(productUrl)] succeeds; when [productUrl] is empty or
    does not parse, all the handler does is to set a (non-empty) error
    message. *)
Theorem handleSubmit_validates_before_createDemo
    (productUrl description : string) (user : option string)
    (response : settled) :
  (∀ request,
     createDemo request ∈ handleSubmit URL productUrl description user response →
     productUrl ≠ EmptyString ∧ is_Some (URL productUrl)) ∧
  (productUrl = EmptyString ∨ URL productUrl = None →
   ∃ message, message ≠ EmptyString ∧
     handleSubmit URL productUrl description user response = [setError message]).
Proof.
  unfold handleSubmit. split.
  - intros request. destruct (truthy productUrl) eqn:Ht; simpl.
    + destruct (validateUrl URL productUrl) eqn:Hv; simpl.
      * intros _. by rewrite <- truthy_spec, <- validateUrl_spec.
      * intros [=]%list_elem_of_singleton.
    + intros [=]%list_elem_of_singleton.
  - intros Hbad. destruct (truthy productUrl) eqn:Ht; simpl.
    + destruct (validateUrl URL productUrl) eqn:Hv; simpl.
      * exfalso. apply truthy_spec in Ht. apply validateUrl_spec in Hv as [? Hv].
        destruct Hbad; congruence.
      * eexists. split; [|reflexivity]. discriminate.
    + eexists. split; [|reflexivity]. discriminate.
Qed.

End DemoFormFacts.

Example handleSubmit_empty_url :
  DemoForm.handleSubmit Samples.parse_https EmptyString "a tour" (Some "u1")
    (DemoForm.rejected None)
  = [DemoForm.setError "Please enter a product URL"].
Proof. reflexivity. Qed.

Example handleSubmit_bad_url :
  DemoForm.handleSubmit Samples.parse_https "example" "a tour" (Some "u1")
    (DemoForm.resolved Samples.demo2)
  = [DemoForm.setError "Please enter a valid URL (e.g., https://example.com)"].
Proof. reflexivity. Qed.

Example handleSubmit_signed_out :
  DemoForm.handleSubmit Samples.parse_https "https://two.example" EmptyString None
    (DemoForm.resolved Samples.demo2)
  = [DemoForm.localStorage_setItem "pending_demo_request"
       (DemoForm.mk_saved "https://two.example" EmptyString true);
     DemoForm.onAuthRequired].
Proof. reflexivity. Qed.

Example handleSubmit_accepted :
  DemoForm.handleSubmit Samples.parse_https "https://two.example" EmptyString (Some "u1")
    (DemoForm.resolved Samples.demo2)
  = [DemoForm.setIsSubmitting true; DemoForm.setError EmptyString;
     DemoForm.createDemo (DemoForm.mk_request "https://two.example" None);
     DemoForm.localStorage_removeItem "pending_demo_request";
     DemoForm.router_push "/dashboard";
     DemoForm.setIsSubmitting false].
Proof. reflexivity. Qed.

Example handleSubmit_rejected :
  foldl DemoForm.apply_action (DemoForm.mk_form EmptyString false)
    (DemoForm.handleSubmit Samples.parse_https "https://two.example" "tour"
       (Some "u1") (DemoForm.rejected (Some "Not authenticated")))
  = DemoForm.mk_form "Not authenticated" false.
Proof. reflexivity. Qed.

Section DashboardFacts.
Import Demo Dashboard.

Lemma foldl_apply_no_setDemos (tr : list action) (st : page_state) :
  Forall (λ a, is_setDemos a = false) tr →
  p_demos (foldl apply_action st tr) = p_demos st.
Proof.
  revert st. induction tr as [|a tr IH]; intros st Hall; simpl; [done|].
  apply Forall_cons in Hall as [Ha Hall]. rewrite IH by done.
  by destruct a.
Qed.

(** C10.  In [handleDelete] the list of demos is set only in the branch
    where [deleteDemo] has resolved, after the request, and to the list
    without the demo; when [deleteDemo] throws, the handler leaves the
    list of demos of the page as it is. *)
Theorem handleDelete_removes_only_after_success
    (demos : list Demo) (confirmed : bool) (response : settled)
    (demoId : string) (st : page_state) :
  (∀ v, setDemos v ∈ handleDelete demos confirmed response demoId →
        response = resolved ∧
        v = List.filter (λ d, negb (String.eqb (id d) demoId)) demos ∧
        ∃ before after,
          handleDelete demos confirmed response demoId
            = (before ++ setDemos v :: after)%list ∧
          deleteDemo demoId ∈ before) ∧
  (∀ message, response = rejected message →
     p_demos (foldl apply_action st (handleDelete demos confirmed response demoId))
     = p_demos st).
Proof.
  unfold handleDelete. split.
  - intros v. destruct confirmed; simpl.
    + destruct response as [|message]; simpl.
      * rewrite !elem_of_cons, elem_of_nil. intros Hin.
        destruct Hin as [?|[?|[?|[?|[?|?]]]]]; try discriminate; try done.
        simplify_eq. split_and!; [done..|].
        eexists [_; _; _], [_]. split; [reflexivity|].
        rewrite !elem_of_cons. auto.
      * rewrite !elem_of_cons, elem_of_nil. intros Hin.
        destruct Hin as [?|[?|[?|[?|[?|?]]]]]; try discriminate; done.
    + intros [=]%list_elem_of_singleton.
  - intros message ->. apply foldl_apply_no_setDemos.
    destruct confirmed; simpl; repeat constructor.
Qed.

End DashboardFacts.

Example handleDelete_resolved :
  Dashboard.handleDelete [Samples.demo1; Samples.demo2] true Dashboard.resolved "d1"
  = [Dashboard.confirm "Are you sure you want to delete this demo?";
     Dashboard.setDeletingId (Some "d1"); Dashboard.deleteDemo "d1";
     Dashboard.setDemos [Samples.demo2]; Dashboard.setDeletingId None].
Proof. reflexivity. Qed.

Example handleDelete_rejected :
  Dashboard.handleDelete [Samples.demo1; Samples.demo2] true
    (Dashboard.rejected "Not authenticated") "d1"
  = [Dashboard.confirm "Are you sure you want to delete this demo?";
     Dashboard.setDeletingId (Some "d1"); Dashboard.deleteDemo "d1";
     Dashboard.alert "Failed to delete demo: Not authenticated";
     Dashboard.setDeletingId None].
Proof. reflexivity. Qed.

Example handleDelete_declined :
  Dashboard.handleDelete [Samples.demo1; Samples.demo2] false Dashboard.resolved "d1"
  = [Dashboard.confirm "Are you sure you want to delete this demo?"].
Proof. reflexivity. Qed.

(** ** Series of calls *)

Section QueueRunsFacts.
Import Sql TaskQueue Sessions QueueRuns.

Implicit Types (t u r : task_queue) (tq : table) (locked : gset uuid).
Implicit Types (now : timestamptz) (k : uuid).
Implicit Types (calls : list (gset uuid * timestamptz)).

(** One step of a series. *)
Lemma claim_calls_cons locked now calls tq :
  claim_calls ((locked, now) :: calls) tq
  = (fst (claim_next_task locked now tq)
       :: fst (claim_calls calls (snd (claim_next_task locked now tq))),
     snd (claim_calls calls (snd (claim_next_task locked now tq)))).
Proof.
  simpl. destruct (claim_next_task locked now tq) as [r tq'].
  simpl. by destruct (claim_calls calls tq').
Qed.

(** What a call returns, when it is a row with a key, is a candidate of the
    table it ran on. *)
Lemma claim_next_task_result locked now tq k :
  id (fst (claim_next_task locked now tq)) = Some k →
  fst (claim_next_task locked now tq) ∈ tq ∧
  candidate locked (fst (claim_next_task locked now tq)) = true ∧
  snd (claim_next_task locked now tq) = update_where_id now k tq.
Proof.
  unfold claim_next_task.
  destruct (id (select_into_next_task locked tq)) as [k'|] eqn:Hk; simpl.
  - intros Hk2. rewrite Hk in Hk2. injection Hk2 as ->.
    destruct (select_id_Some _ _ _ Hk) as [Hin Hc]. done.
  - intros Hk2. congruence.
Qed.

Lemma claim_next_task_result_None locked now tq :
  id (fst (claim_next_task locked now tq)) = None →
  snd (claim_next_task locked now tq) = tq.
Proof.
  unfold claim_next_task.
  destruct (id (select_into_next_task locked tq)) as [k'|] eqn:Hk; simpl;
    [congruence | done].
Qed.

(** The [UPDATE] makes no row pending: a pending row of the table after a
    call was there, as it is, before. *)
Lemma update_where_id_pending now k tq t :
  t ∈ update_where_id now k tq → where_pending t = true → t ∈ tq.
Proof.
  unfold update_where_id. intros (u & -> & Hu)%list_elem_of_fmap.
  case_bool_decide; [|done].
  intros [Hst _]%where_pending_spec. simpl in Hst. discriminate.
Qed.

Lemma claim_next_task_pending locked now tq t :
  t ∈ snd (claim_next_task locked now tq) → where_pending t = true → t ∈ tq.
Proof.
  unfold claim_next_task.
  destruct (id (select_into_next_task locked tq)); simpl; [|done].
  apply update_where_id_pending.
Qed.

Lemma claim_next_task_claimed locked now tq k :
  claimed_in tq k → claimed_in (snd (claim_next_task locked now tq)) k.
Proof.
  unfold claim_next_task.
  destruct (id (select_into_next_task locked tq)); simpl; [|done].
  apply claimed_in_update.
Qed.

(** A key whose rows are all [processing] is handed out by no later call. *)
Lemma claimed_never_returned calls tq k :
  claimed_in tq k → Some k ∉ id <$> fst (claim_calls calls tq).
Proof.
  revert tq. induction calls as [|[locked now] calls IH]; intros tq Hc.
  - simpl. apply not_elem_of_nil.
  - rewrite claim_calls_cons. simpl. rewrite not_elem_of_cons. split.
    + intros Hk. symmetry in Hk.
      destruct (claim_next_task_result locked now tq k Hk) as (Hin & Hcand & _).
      by rewrite (claimed_not_candidate locked tq k _ Hc Hin Hk) in Hcand.
    + apply IH. by apply claim_next_task_claimed.
Qed.

Lemma handed_out_cons r results :
  handed_out (r :: results)
  = if bool_decide (is_Some (id r)) then r :: handed_out results
    else handed_out results.
Proof. reflexivity. Qed.

Lemma elem_of_handed_out r results :
  r ∈ handed_out results ↔ r ∈ results ∧ is_Some (id r).
Proof.
  unfold handed_out. rewrite !list_elem_of_In, filter_In.
  by rewrite bool_decide_eq_true.
Qed.

Lemma handed_out_NoDup calls tq :
  NoDup (id <$> handed_out (fst (claim_calls calls tq))).
Proof.
  revert tq. induction calls as [|[locked now] calls IH]; intros tq.
  - simpl. constructor.
  - rewrite claim_calls_cons. simpl fst. rewrite handed_out_cons.
    case_bool_decide as Hk; [|apply IH].
    destruct Hk as [k Hk]. simpl. apply NoDup_cons. split; [|apply IH].
    rewrite Hk. intros Hin.
    apply list_elem_of_fmap in Hin as (r & Hr & Hin).
    apply elem_of_handed_out in Hin as [Hin _].
    eapply (claimed_never_returned calls
              (snd (claim_next_task locked now tq)) k).
    + destruct (claim_next_task_result locked now tq k Hk) as (_ & _ & ->).
      apply claimed_in_update_same.
    + apply list_elem_of_fmap. eauto.
Qed.

(** X1.  In a series of calls, whatever the locks held at each call, no key
    is handed out twice. *)
Theorem claim_calls_hand_out_once calls tq :
  NoDup (id <$> handed_out (fst (claim_calls calls tq))).
Proof. apply handed_out_NoDup. Qed.

(** Every row handed out was a pending row of the table the series started
    from. *)
Lemma claim_calls_handed_out_pending calls tq r :
  r ∈ handed_out (fst (claim_calls calls tq)) →
  r ∈ tq ∧ where_pending r = true.
Proof.
  revert tq. induction calls as [|[locked now] calls IH]; intros tq.
  - simpl. by intros ?%elem_of_nil.
  - rewrite claim_calls_cons. simpl fst. rewrite handed_out_cons.
    assert (r ∈ handed_out (fst (claim_calls calls (snd (claim_next_task locked now tq))))
            → r ∈ tq ∧ where_pending r = true) as Hrest.
    { intros [Hin Hp]%IH. split; [|done]. by eapply claim_next_task_pending. }
    case_bool_decide as Hk; [|done].
    intros [->|Hin]%elem_of_cons; [|auto].
    destruct Hk as [k Hk].
    destruct (claim_next_task_result locked now tq k Hk) as (Hin & Hc & _).
    by apply candidate_spec in Hc as [Hp _].
Qed.

(** X2.  A series of calls hands out at most as many rows as the table held
    pending rows with [attempts < max_attempts] at the start. *)
Theorem claim_calls_bounded calls tq :
  (length (handed_out (fst (claim_calls calls tq)))
   <= length (List.filter where_pending tq))%nat.
Proof.
  apply submseteq_length, NoDup_submseteq.
  - eapply NoDup_fmap_1. apply handed_out_NoDup.
  - intros r Hr. apply claim_calls_handed_out_pending in Hr as [Hin Hp].
    rewrite list_elem_of_In. apply filter_In. by rewrite <- list_elem_of_In.
Qed.

Example claim_calls_handed_out :
  handed_out (fst (claim_calls [(∅, 100); ({[1%N]}, 200); (∅, 300); (∅, 400)]
                     Samples.queue_all))
  = [Samples.task_a; Samples.task_b].
Proof. vm_compute. reflexivity. Qed.

Lemma fst_claim_next_task locked now tq :
  fst (claim_next_task locked now tq) = select_into_next_task locked tq.
Proof. unfold claim_next_task. by destruct (id _). Qed.

Lemma skip_locked_empty t : skip_locked ∅ t = true.
Proof.
  unfold skip_locked. destruct (id t); [|done].
  apply bool_decide_eq_true_2. set_solver.
Qed.

Lemma unlocked_cons now nows : unlocked (now :: nows) = (∅, now) :: unlocked nows.
Proof. reflexivity. Qed.


Lemma filter_insert_length {A} (P : A → bool) (l : list A) i x y :
  l !! i = Some x → P x = true → P y = false →
  (length (List.filter P (<[i:=y]> l)) + 1 = length (List.filter P l))%nat.
Proof.
  revert i. induction l as [|z l IH]; intros i; [done|].
  destruct i as [|i]; simpl.
  - intros [= ->] Hx Hy. rewrite Hx, Hy. simpl. lia.
  - intros Hi Hx Hy. specialize (IH i Hi Hx Hy).
    destruct (P z); simpl; lia.
Qed.

(** X4.  While no other transaction holds a lock, as many calls as the
    table holds pending rows with [attempts < max_attempts] hand out every
    one of them: no such row is passed over for ever. *)
Theorem claim_calls_serve_all nows tq t :
  table_ok tq → t ∈ tq → where_pending t = true →
  (length (List.filter where_pending tq) <= length nows)%nat →
  t ∈ fst (claim_calls (unlocked nows) tq).
Proof.
  revert tq. induction nows as [|now nows IH]; intros tq Hok Hin Hp Hlen.
  - exfalso. simpl in Hlen.
    assert (t ∈ List.filter where_pending tq) as Hx
      by (rewrite list_elem_of_In; apply filter_In; by rewrite <- list_elem_of_In).
    destruct (List.filter where_pending tq); [by apply elem_of_nil in Hx|].
    simpl in Hlen. lia.
  - rewrite unlocked_cons, claim_calls_cons. simpl fst.
    rewrite fst_claim_next_task.
    destruct (select_found ∅ tq) as (Hrin & Hrc & _).
    { exists t. split; [done|]. apply candidate_spec.
      split; [done | apply skip_locked_empty]. }
    set (r := select_into_next_task ∅ tq) in *.
    destruct (decide (r = t)) as [->|Hne]; [apply list_elem_of_here|].
    apply list_elem_of_further.
    pose proof Hok as [Hnn Hnd].
    destruct (proj1 (Forall_forall _ _) Hnn r Hrin) as ([k Hk] & _).
    apply candidate_spec in Hrc as [Hrp _].
    assert (snd (claim_next_task ∅ now tq) = update_where_id now k tq) as Htq'.
    { unfold claim_next_task. fold r. by rewrite Hk. }
    apply IH.
    + by apply claim_next_task_table_ok.
    + rewrite Htq'. apply update_where_id_other; [done|].
      intros Hid. apply Hne. eapply primary_key_elem; eauto. congruence.
    + done.
    + rewrite Htq'.
      apply list_elem_of_lookup in Hrin as [i Hi].
      rewrite (update_where_id_insert now k tq i r) by done.
      pose proof (filter_insert_length where_pending tq i r
                    (set_processing now r) Hi Hrp eq_refl) as Hf.
      simpl in Hlen. lia.
Qed.

Lemma queue_all_elem t : In t Samples.queue_all → t ∈ Samples.queue_all.
Proof. apply list_elem_of_In. Defined.

Lemma claim_calls_serve_all_witness :
  Samples.task_b ∈ fst (claim_calls (unlocked [100; 200]) Samples.queue_all).
Proof.
  apply (claim_calls_serve_all [100; 200] Samples.queue_all Samples.task_b
           queue_all_ok).
  - apply queue_all_elem. simpl. auto.
  - reflexivity.
  - vm_compute. lia.
Defined.

Lemma claim_next_task_attempts_bounded locked now tq :
  table_ok tq → Forall attempts_bounded tq →
  Forall attempts_bounded (snd (claim_next_task locked now tq)).
Proof.
  intros [_ Hnd] Hok. unfold claim_next_task.
  destruct (id (select_into_next_task locked tq)) as [k|] eqn:Hk; [|done].
  simpl. destruct (select_id_Some _ _ _ Hk) as [Hin Hc].
  apply candidate_spec in Hc as [Hp _].
  apply where_pending_spec in Hp as (_ & a & m & Ha & Hm & Ham).
  unfold update_where_id. apply Forall_fmap.
  apply Forall_forall. intros u Hu. simpl.
  pose proof (proj1 (Forall_forall _ _) Hok u Hu) as Hub.
  case_bool_decide as Hid; [|done].
  assert (u = select_into_next_task locked tq) as ->
    by (eapply primary_key_elem; eauto; congruence).
  intros a' m'. simpl. rewrite Ha, Hm. simpl. intros [= <-] [= <-]. lia.
Qed.

(** X5.  Whatever the series of calls, the table keeps its constraints and
    its rows: the primary key and the [NOT NULL] columns hold afterwards,
    and the keys of the table are the same, in the same order. *)
Theorem claim_calls_keep_constraints calls tq :
  table_ok tq →
  table_ok (snd (claim_calls calls tq)) ∧
  id <$> snd (claim_calls calls tq) = id <$> tq.
Proof.
  revert tq. induction calls as [|[locked now] calls IH]; intros tq Hok.
  - done.
  - rewrite claim_calls_cons. simpl snd.
    destruct (IH _ (claim_next_task_table_ok locked now tq Hok)) as [IH1 IH2].
    split; [done|]. rewrite IH2. unfold claim_next_task.
    destruct (id (select_into_next_task locked tq)); simpl; [|done].
    apply update_where_id_ids.
Qed.

Lemma claim_calls_keep_constraints_witness :
  table_ok (snd (claim_calls [(∅, 100); ({[1%N]}, 200)] Samples.queue_all)) ∧
  id <$> snd (claim_calls [(∅, 100); ({[1%N]}, 200)] Samples.queue_all)
  = id <$> Samples.queue_all.
Proof.
  apply (claim_calls_keep_constraints [(∅, 100); ({[1%N]}, 200)]
           Samples.queue_all queue_all_ok).
Defined.

(** X6.  Whatever the series of calls, the counters stay sound: a table in
    which [attempts <= max_attempts] holds keeps it, and [attempts] stays
    within [INT], so that [attempts + 1] never overflows. *)
Theorem claim_calls_keep_counters calls tq :
  table_ok tq → Forall attempts_bounded tq → Forall int4_ok tq →
  Forall attempts_bounded (snd (claim_calls calls tq)) ∧
  Forall int4_ok (snd (claim_calls calls tq)).
Proof.
  revert tq. induction calls as [|[locked now] calls IH]; intros tq Hok Hb H4.
  - done.
  - rewrite claim_calls_cons. simpl snd. apply IH.
    + by apply claim_next_task_table_ok.
    + by apply claim_next_task_attempts_bounded.
    + by apply claim_next_task_int4.
Qed.

Lemma queue_all_bounded : Forall attempts_bounded Samples.queue_all.
Proof.
  unfold Samples.queue_all.
  repeat (apply Forall_cons_2; [intros a m; simpl; intros [= <-] [= <-]; lia|]).
  apply Forall_nil_2.
Defined.

Lemma queue_all_int4 : Forall int4_ok Samples.queue_all.
Proof.
  unfold Samples.queue_all.
  repeat (apply Forall_cons_2;
          [split; simpl; intros ? [= <-];
           unfold int4_range, int4_min, int4_max; lia|]).
  apply Forall_nil_2.
Defined.

Lemma claim_calls_keep_counters_witness :
  Forall attempts_bounded
    (snd (claim_calls [(∅, 100); (∅, 200); (∅, 300)] Samples.queue_all)) ∧
  Forall int4_ok
    (snd (claim_calls [(∅, 100); (∅, 200); (∅, 300)] Samples.queue_all)).
Proof.
  apply (claim_calls_keep_counters [(∅, 100); (∅, 200); (∅, 300)]
           Samples.queue_all queue_all_ok queue_all_bounded queue_all_int4).
Defined.

(** *** Locks *)

Lemma locks_owned_initial (σ : db) : initial σ → locks_owned σ.
Proof. intros [Hl _] k i. rewrite Hl, lookup_empty. discriminate. Qed.

Lemma locks_owned_exec (σ σ' : db) (j : nat) :
  locks_owned σ → exec j σ = Some σ' → locks_owned σ'.
Proof.
  intros Hown. unfold exec.
  destruct (sessions σ !! j) as [sj|] eqn:Hj; [|done].
  assert (j < length (sessions σ))%nat as Hlen by eauto using lookup_lt_Some.
  destruct (s_pc sj) eqn:Hpc; intros [= <-]; intros k i; simpl.
  - (* SELECT *)
    set (nt := select_into_next_task _ _).
    assert (row_locks σ !! k = Some i →
            ∃ s, <[j:=mk_session AtUpdate (s_now sj) nt]> (sessions σ) !! i = Some s ∧
                 (s_pc s = AtUpdate ∨ s_pc s = AtReturn) ∧
                 id (s_next_task s) = Some k) as Hold.
    { intros Hl. destruct (Hown k i Hl) as (s & Hi & Hs & Hk).
      exists s. split; [|done].
      rewrite list_lookup_insert_ne; [done|].
      intros <-. rewrite Hj in Hi. injection Hi as <-.
      rewrite Hpc in Hs. by destruct Hs. }
    destruct (id nt) as [k0|] eqn:Hnt; [|done].
    destruct (decide (k0 = k)) as [->|Hne].
    + rewrite lookup_insert_eq. intros [= <-].
      eexists. rewrite list_lookup_insert_eq by done. simpl. eauto.
    + by rewrite lookup_insert_ne.
  - (* UPDATE *)
    intros Hl. destruct (Hown k i Hl) as (s & Hi & Hs & Hk).
    destruct (decide (i = j)) as [->|Hne].
    + rewrite Hj in Hi. injection Hi as <-.
      eexists. rewrite list_lookup_insert_eq by done. simpl. eauto.
    + exists s. by rewrite list_lookup_insert_ne.
  - (* RETURN *)
    unfold held_by_others. intros [Hl Hne]%map_lookup_filter_Some.
    simpl in Hne. destruct (Hown k i Hl) as (s & Hi & Hs & Hk).
    exists s. by rewrite list_lookup_insert_ne.
Qed.

(** X7.  From a state in which no call has started, however the callers
    interleave, a row lock is only ever held by a caller that has run its
    [SELECT] and has not returned yet, on the row in its [next_task]; once
    every caller has returned, no lock is left. *)
Theorem row_locks_released (σ0 σ : db) :
  initial σ0 → rtc step σ0 σ →
  locks_owned σ ∧
  (Forall (λ s, s_pc s = Returned) (sessions σ) → row_locks σ = ∅).
Proof.
  intros Hinit Hrtc.
  assert (locks_owned σ) as Hown.
  { pose proof (locks_owned_initial σ0 Hinit) as H0. clear Hinit.
    induction Hrtc as [|σ1 σ2 σ3 Hstep _ IH]; [done|].
    apply IH. destruct Hstep as [i σa σb Hexec].
    by eapply locks_owned_exec. }
  split; [done|]. intros Hall. apply map_empty. intros k.
  destruct (row_locks σ !! k) as [i|] eqn:Hl; [|done].
  destruct (Hown k i Hl) as (s & Hi & Hs & _).
  pose proof (proj1 (Forall_lookup _ _) Hall i s Hi) as Hr.
  rewrite Hr in Hs. by destruct Hs.
Qed.

Lemma row_locks_released_witness :
  locks_owned Samples.two_callers_done ∧
  (Forall (λ s, s_pc s = Returned) (sessions Samples.two_callers_done) →
   row_locks Samples.two_callers_done = ∅).
Proof.
  apply (row_locks_released Samples.two_callers Samples.two_callers_done
           two_callers_initial).
  exact (run_rtc _ _ _ two_callers_run).
Defined.

(** Between the two [SELECT]s and the first [RETURN], both rows are
    locked, each by its caller. *)
Example two_callers_locks :
  row_locks <$> run [0; 1]%nat Samples.two_callers
  = Some (<[2%N := 1%nat]> (<[1%N := 0%nat]> ∅)).
Proof. vm_compute. reflexivity. Qed.

(** X8.  When every pending row with [attempts < max_attempts] is locked
    by another transaction, the call returns the all-NULL row and leaves
    the table as it is: it passes the locked rows over instead of waiting
    for them. *)
Theorem claim_next_task_all_locked locked now tq :
  (∀ t, t ∈ tq → where_pending t = true →
        ∃ k, id t = Some k ∧ k ∈ locked) →
  claim_next_task locked now tq = (null_task, tq).
Proof.
  intros Hall. unfold claim_next_task.
  rewrite select_not_found; [done|].
  intros t Hin. destruct (where_pending t) eqn:Hp.
  - destruct (Hall t Hin Hp) as (k & Hk & Hl).
    by apply (locked_not_candidate locked t k).
  - unfold candidate. by rewrite Hp.
Qed.

Lemma claim_next_task_all_locked_witness :
  claim_next_task {[1%N; 2%N]} 100 Samples.queue_ab = (null_task, Samples.queue_ab).
Proof.
  apply (claim_next_task_all_locked {[1%N; 2%N]} 100 Samples.queue_ab).
  unfold Samples.queue_ab. intros t. rewrite !elem_of_cons, elem_of_nil.
  intros [->|[->|[]]] _.
  - exists 1%N. split; [reflexivity|]. set_solver.
  - exists 2%N. split; [reflexivity|]. set_solver.
Defined.

(** *** Insertion *)

Lemma new_row_pending gen_random_uuid now c :
  c_status c = DEFAULT → c_attempts c = DEFAULT → c_max_attempts c = DEFAULT →
  where_pending (new_row gen_random_uuid now c) = true.
Proof.
  intros Hs Ha Hm. unfold where_pending, new_row. simpl.
  rewrite Hs, Ha, Hm. vm_compute. reflexivity.
Qed.

(** X9.  An [INSERT] keeps the constraints of the table: the table an
    accepted insert leaves satisfies the primary key and the [NOT NULL]
    columns, with the new row at its end; and an insert whose key is
    already in the table is refused. *)
Theorem insert_into_task_queue_keeps_constraints is_jsonb gen_random_uuid
    now c tq :
  table_ok tq →
  (∀ tq', insert_into_task_queue is_jsonb gen_random_uuid now c tq = Some tq' →
          table_ok tq' ∧
          tq' = (tq ++ [new_row gen_random_uuid now c])%list) ∧
  (id (new_row gen_random_uuid now c) ∈ id <$> tq →
   insert_into_task_queue is_jsonb gen_random_uuid now c tq = None).
Proof.
  intros [Hnn Hnd]. split.
  - intros tq' (-> & _ & Hok & Hfresh)%insert_into_task_queue_Some.
    split; [|done]. split.
    + apply Forall_app. split; [done|]. by constructor.
    + rewrite fmap_app. simpl. apply NoDup_app. split_and!; [done| |].
      * intros x Hx ->%list_elem_of_singleton. done.
      * apply NoDup_singleton.
  - intros Hdup. unfold insert_into_task_queue.
    rewrite (bool_decide_eq_false_2 (id _ ∉ _)); [|by intros H; apply H].
    by rewrite andb_false_r.
Qed.

Lemma insert_into_task_queue_keeps_constraints_witness :
  (∀ tq', insert_into_task_queue Samples.only_empty_object 7%N 50
            Samples.insert_record Samples.queue_ab = Some tq' →
          table_ok tq' ∧
          tq' = (Samples.queue_ab ++ [new_row 7%N 50 Samples.insert_record])%list) ∧
  (id (new_row 7%N 50 Samples.insert_record) ∈ id <$> Samples.queue_ab →
   insert_into_task_queue Samples.only_empty_object 7%N 50
     Samples.insert_record Samples.queue_ab = None).
Proof.
  apply (insert_into_task_queue_keeps_constraints Samples.only_empty_object
           7%N 50 Samples.insert_record Samples.queue_ab queue_ab_ok).
Defined.

(** X10.  A row inserted with the defaults of [status], [attempts] and
    [max_attempts] into a table that holds no pending row with attempts
    left is the row the next call hands out, provided no other transaction
    holds its lock; the table then shows it as [processing] with one
    attempt. *)
Theorem insert_then_claim is_jsonb gen_random_uuid now c tq tq' locked now' :
  (∀ t, t ∈ tq → where_pending t = false) →
  c_status c = DEFAULT → c_attempts c = DEFAULT → c_max_attempts c = DEFAULT →
  insert_into_task_queue is_jsonb gen_random_uuid now c tq = Some tq' →
  (∀ k, id (new_row gen_random_uuid now c) = Some k → k ∉ locked) →
  fst (claim_next_task locked now' tq') = new_row gen_random_uuid now c ∧
  set_processing now' (new_row gen_random_uuid now c)
    ∈ snd (claim_next_task locked now' tq') ∧
  status (set_processing now' (new_row gen_random_uuid now c)) = Some "processing" ∧
  attempts (set_processing now' (new_row gen_random_uuid now c)) = Some 1.
Proof.
  intros Hidle Hs Ha Hm (-> & _ & Hok & Hfresh)%insert_into_task_queue_Some Hunl.
  set (row := new_row gen_random_uuid now c) in *.
  destruct Hok as ([k Hk] & _).
  assert (where_pending row = true) as Hp by by apply new_row_pending.
  assert (candidate locked row = true) as Hc.
  { apply candidate_spec. split; [done|].
    apply (skip_locked_spec locked row k Hk). by apply Hunl. }
  destruct (select_found locked (tq ++ [row])) as (Hin & Hsc & _).
  { exists row. split; [|done]. apply elem_of_app. right. apply list_elem_of_here. }
  assert (select_into_next_task locked (tq ++ [row]) = row) as Hsel.
  { apply elem_of_app in Hin as [Hin|Hin%list_elem_of_singleton]; [|done].
    apply candidate_spec in Hsc as [Hsp _]. by rewrite (Hidle _ Hin) in Hsp. }
  unfold claim_next_task. rewrite Hsel, Hk. simpl. split_and!; [done| | |].
  - unfold update_where_id. apply list_elem_of_fmap. exists row.
    rewrite bool_decide_eq_true_2 by done. split; [done|].
    apply elem_of_app. right. apply list_elem_of_here.
  - done.
  - unfold row, new_row. simpl. by rewrite Ha.
Qed.

Lemma insert_then_claim_witness :
  fst (claim_next_task {[4%N]} 60
         (Samples.queue_idle ++ [new_row 7%N 50 Samples.insert_record]))
  = new_row 7%N 50 Samples.insert_record ∧
  set_processing 60 (new_row 7%N 50 Samples.insert_record)
    ∈ snd (claim_next_task {[4%N]} 60
             (Samples.queue_idle ++ [new_row 7%N 50 Samples.insert_record])) ∧
  status (set_processing 60 (new_row 7%N 50 Samples.insert_record))
  = Some "processing" ∧
  attempts (set_processing 60 (new_row 7%N 50 Samples.insert_record)) = Some 1.
Proof.
  apply (insert_then_claim Samples.only_empty_object 7%N 50
           Samples.insert_record Samples.queue_idle
           (Samples.queue_idle ++ [new_row 7%N 50 Samples.insert_record])
           {[4%N]} 60 queue_idle_not_pending).
  - reflexivity.
  - reflexivity.
  - reflexivity.
  - vm_compute. reflexivity.
  - intros k [= <-]. set_solver.
Defined.

End QueueRunsFacts.

(** ** The [demos] table *)

Section DemosFacts.
Import Sql Demos.

Implicit Types (r : demos) (tbl : list demos) (uid : option uuid).
Implicit Types (p : demos → bool) (set : demos → demos).

Lemma own_spec uid r :
  own uid r = true ↔ ∃ u, uid = Some u ∧ user_id r = Some u.
Proof.
  unfold own, sql_eq_uuid. destruct uid as [u|], (user_id r) as [v|]; simpl.
  - case_bool_decide; simpl; split.
    + intros _. exists u. by subst.
    + done.
    + discriminate.
    + intros (? & [= <-] & [= <-]). done.
  - split; [discriminate | intros (? & _ & [=])].
  - split; [discriminate | intros (? & [=] & _)].
  - split; [discriminate | intros (? & [=] & _)].
Qed.

Lemma own_update_updated_at_column uid now r :
  own uid (update_updated_at_column now r) = own uid r.
Proof. reflexivity. Qed.

(** What [UPDATE] does to one row. *)
Lemma update_row_Some uid now p set r r' :
  update_row uid now p set r = Some r' →
  (own uid r && p r = false ∧ r' = r) ∨
  (own uid r = true ∧ p r = true ∧ own uid r' = true ∧
   r' = update_updated_at_column now (set r)).
Proof.
  unfold update_row. destruct (own uid r && p r) eqn:Hsel.
  - destruct (own uid (update_updated_at_column now (set r))) eqn:Hnew; [|done].
    intros [= <-]. right. apply andb_true_iff in Hsel as [? ?]. done.
  - intros [= <-]. by left.
Qed.

Lemma update_demos_Some uid now p set tbl tbl' :
  update_demos uid now p set tbl = Some tbl' →
  Forall2 (λ r r', update_row uid now p set r = Some r') tbl tbl' ∧
  demos_ok tbl'.
Proof.
  unfold update_demos.
  destruct (mapM _ tbl) as [l|] eqn:Hm; [|done].
  case_decide; [|done]. intros [= <-]. by apply mapM_Some in Hm.
Qed.

(** X11.  Under row-level security a user reaches their own demos only:
    a [SELECT] returns rows of the user alone, an accepted [UPDATE] leaves
    the rows of everyone else as they are, a [DELETE] removes nothing, and
    a request without a user reads nothing and changes nothing. *)
Theorem row_level_security_isolates uid now p set tbl :
  (∀ r, r ∈ select_demos uid p tbl →
        r ∈ tbl ∧ ∃ u, uid = Some u ∧ user_id r = Some u) ∧
  (∀ tbl', update_demos uid now p set tbl = Some tbl' →
           of_others uid tbl' = of_others uid tbl) ∧
  delete_demos uid p tbl = tbl ∧
  (uid = None →
   select_demos uid p tbl = [] ∧
   ∀ tbl', update_demos uid now p set tbl = Some tbl' → tbl' = tbl).
Proof.
  split_and!.
  - intros r. unfold select_demos. rewrite list_elem_of_In, filter_In.
    rewrite <- list_elem_of_In, andb_true_iff, own_spec. tauto.
  - intros tbl' [Hall _]%update_demos_Some. unfold of_others.
    induction Hall as [|r r' l l' Hr _ IH]; [done|]. simpl. rewrite IH.
    apply update_row_Some in Hr as [[_ ->]|(Ho & _ & Ho' & _)]; [done|].
    by rewrite Ho, Ho'.
  - unfold delete_demos, no_policy. simpl.
    induction tbl as [|r tbl IH]; [done|]. simpl. by rewrite IH.
  - intros ->. split.
    + unfold select_demos. induction tbl as [|r tbl IH]; [done|]. done.
    + intros tbl' [Hall _]%update_demos_Some.
      induction Hall as [|r r' l l' Hr _ IH]; [done|]. rewrite IH.
      by apply update_row_Some in Hr as [[_ ->]|(Ho & _)].
Qed.

(** X12.  An accepted [UPDATE] changes the table row by row and in place:
    a row it changes belongs to the user before and after, with the same
    owner, and carries [updated_at = NOW()] whatever the [SET] clause
    assigned; every other row is as before; and the table still satisfies
    its constraints. *)
Theorem update_demos_stamps uid now p set tbl tbl' :
  update_demos uid now p set tbl = Some tbl' →
  demos_ok tbl' ∧ length tbl' = length tbl ∧
  ∀ i r r', tbl !! i = Some r → tbl' !! i = Some r' →
    r' = r ∨
    (own uid r = true ∧ p r = true ∧
     r' = update_updated_at_column now (set r) ∧
     updated_at r' = Some now ∧ user_id r' = user_id r).
Proof.
  intros [Hall Hok]%update_demos_Some. split_and!; [done| |].
  - symmetry. by eapply Forall2_length.
  - intros i r r' Hi Hi'.
    pose proof (Forall2_lookup_lr _ _ _ _ _ _ Hall Hi Hi') as Hr. simpl in Hr.
    apply update_row_Some in Hr as [[_ ->]|(Ho & Hp & Ho' & ->)]; [by left|].
    right. split_and!; [done..|].
    apply own_spec in Ho as (u & Hu & Hr).
    apply own_spec in Ho' as (u' & Hu' & Hr'). congruence.
Qed.

(** X13.  An accepted [INSERT] adds one row, which belongs to the user that
    inserts it, and the table keeps its constraints; with [status] and
    [short_video_urls] left to their defaults the new demo is [pending] and
    has no short videos.  A request without a user cannot insert. *)
Theorem insert_demo_own users uid gen_random_uuid now c tbl :
  (∀ tbl', insert_demo users uid gen_random_uuid now c tbl = Some tbl' →
     tbl' = (tbl ++ [new_row gen_random_uuid now c])%list ∧
     demos_ok tbl' ∧
     (∃ u, uid = Some u ∧ user_id (new_row gen_random_uuid now c) = Some u ∧
           u ∈ users) ∧
     (c_status c = TaskQueue.DEFAULT → c_short_video_urls c = TaskQueue.DEFAULT →
      status (new_row gen_random_uuid now c) = Some "pending" ∧
      short_video_urls (new_row gen_random_uuid now c) = Some [])) ∧
  (uid = None → insert_demo users uid gen_random_uuid now c tbl = None).
Proof.
  split.
  - intros tbl'. unfold insert_demo. cbv zeta.
    destruct (own uid (new_row gen_random_uuid now c)) eqn:Ho; [|done].
    apply own_spec in Ho as (u & Hu & Hr). rewrite Hr, andb_true_l.
    case_bool_decide as Hfk; [|done]. rewrite andb_true_l.
    case_bool_decide as Hok; [|done].
    intros [= <-]. split_and!; [done..|eauto|].
    intros Hs Hv. unfold new_row. simpl. by rewrite Hs, Hv.
  - intros ->. unfold insert_demo. done.
Qed.




Example update_own_rows :
  update_demos (Some 10%N) 50 MoreSamples.everywhere MoreSamples.set_description
    MoreSamples.demos_table
  = Some [update_updated_at_column 50 (MoreSamples.set_description MoreSamples.row1);
          MoreSamples.row2;
          update_updated_at_column 50 (MoreSamples.set_description MoreSamples.row3)].
Proof. vm_compute. reflexivity. Qed.

(** Giving a demo away is refused, and so is taking a key that is in use. *)
Example update_refused :
  update_demos (Some 10%N) 50 MoreSamples.everywhere MoreSamples.set_owner_20
    MoreSamples.demos_table = None ∧
  update_demos (Some 10%N) 50 MoreSamples.everywhere
    (λ r, mk_demos (Some 2%N) (user_id r) (product_url r) (description r)
            (status r) (long_video_url r) (short_video_urls r)
            (klap_folder_id r) (klap_project_id r) (error_message r)
            (created_at r) (updated_at r))
    MoreSamples.demos_table = None.
Proof. vm_compute. auto. Qed.

Lemma update_demos_stamps_witness :
  update_demos (Some 10%N) 50 MoreSamples.everywhere MoreSamples.set_description
    MoreSamples.demos_table
  = Some [update_updated_at_column 50 (MoreSamples.set_description MoreSamples.row1);
          MoreSamples.row2;
          update_updated_at_column 50 (MoreSamples.set_description MoreSamples.row3)] ∧
  updated_at (update_updated_at_column 50 (MoreSamples.set_description MoreSamples.row1))
  = Some 50.
Proof.
  assert (update_demos (Some 10%N) 50 MoreSamples.everywhere
            MoreSamples.set_description MoreSamples.demos_table
          = Some [update_updated_at_column 50
                    (MoreSamples.set_description MoreSamples.row1);
                  MoreSamples.row2;
                  update_updated_at_column 50
                    (MoreSamples.set_description MoreSamples.row3)]) as Hrun
    by (vm_compute; reflexivity).
  split; [exact Hrun|].
  destruct (update_demos_stamps _ _ _ _ _ _ Hrun) as (_ & _ & Hrows).
  destruct (Hrows 0%nat MoreSamples.row1 _ eq_refl eq_refl)
    as [Hsame|(_ & _ & _ & Hstamp & _)].
  - discriminate Hsame.
  - exact Hstamp.
Defined.

Example insert_demo_defaults :
  insert_demo {[10%N; 20%N]} (Some 20%N) 4%N 60
    (mk_insert TaskQueue.DEFAULT (TaskQueue.VALUE (Some 20%N))
       (TaskQueue.VALUE (Some "https://four.example"))
       (TaskQueue.VALUE (Some "demo")) TaskQueue.DEFAULT TaskQueue.DEFAULT
       TaskQueue.DEFAULT TaskQueue.DEFAULT TaskQueue.DEFAULT TaskQueue.DEFAULT
       TaskQueue.DEFAULT TaskQueue.DEFAULT)
    MoreSamples.demos_table
  = Some (MoreSamples.demos_table ++
          [mk_demos (Some 4%N) (Some 20%N) (Some "https://four.example")
             (Some "demo") (Some "pending") None (Some []) None None None
             (Some 60) (Some 60)])%list.
Proof. vm_compute. reflexivity. Qed.

(** A demo for another user, or without a description, is refused. *)
Example insert_demo_refused :
  insert_demo {[10%N; 20%N]} (Some 10%N) 4%N 60
    (mk_insert TaskQueue.DEFAULT (TaskQueue.VALUE (Some 20%N))
       (TaskQueue.VALUE (Some "https://four.example"))
       (TaskQueue.VALUE (Some "demo")) TaskQueue.DEFAULT TaskQueue.DEFAULT
       TaskQueue.DEFAULT TaskQueue.DEFAULT TaskQueue.DEFAULT TaskQueue.DEFAULT
       TaskQueue.DEFAULT TaskQueue.DEFAULT)
    MoreSamples.demos_table = None ∧
  insert_demo {[10%N; 20%N]} (Some 20%N) 4%N 60
    (mk_insert TaskQueue.DEFAULT (TaskQueue.VALUE (Some 20%N))
       (TaskQueue.VALUE (Some "https://four.example"))
       TaskQueue.DEFAULT TaskQueue.DEFAULT TaskQueue.DEFAULT
       TaskQueue.DEFAULT TaskQueue.DEFAULT TaskQueue.DEFAULT TaskQueue.DEFAULT
       TaskQueue.DEFAULT TaskQueue.DEFAULT)
    MoreSamples.demos_table = None.
Proof. vm_compute. auto. Qed.

End DemosFacts.

(** ** The calls of the API *)

Section ServicesFacts.
Import Demo Services.

Lemma or_else_truthy (a : option string) (b : string) :
  DemoForm.truthy b = true → DemoForm.truthy (DemoForm.or_else a b) = true.
Proof.
  intros Hb. unfold DemoForm.or_else. destruct a as [s|]; [|done].
  by destruct (DemoForm.truthy s) eqn:Hs.
Qed.

Lemma getAuthToken_resolved (access_token : option string) (token : string) :
  getAuthToken access_token = resolved token ↔
  access_token = Some token ∧ token ≠ EmptyString.
Proof.
  unfold getAuthToken. destruct access_token as [t|]; [|by split; [|intros [? _]]].
  destruct (DemoForm.truthy t) eqn:Ht.
  - apply truthy_spec in Ht. split; [by intros [= <-] | by intros [[= <-] _]].
  - split; [done|]. intros [[= <-] Hne]. apply truthy_spec in Hne. congruence.
Qed.

Lemma getAuthToken_rejected (access_token : option string) (message : string) :
  getAuthToken access_token = rejected message →
  message = "Not authenticated" ∧
  (access_token = None ∨ access_token = Some EmptyString).
Proof.
  unfold getAuthToken. destruct access_token as [t|].
  - destruct (DemoForm.truthy t) eqn:Ht; [done|]. intros [= <-].
    split; [done|]. right. f_equal.
    destruct (decide (t = EmptyString)) as [|Hne]; [done|].
    apply truthy_spec in Hne. congruence.
  - intros [= <-]. auto.
Qed.

(** X14.  None of the four calls sends a request without an access token:
    when there is no session, or its token is empty, the call rejects with
    "Not authenticated" and nothing is sent; otherwise it sends one
    request, which carries the token as its [Authorization] header. *)
Theorem api_calls_carry_token (env access_token : option string)
    (request : CreateDemoRequest) (demoId : string)
    (xc xg : exchange Demo) (xl : exchange (list Demo)) (xd : exchange unit) :
  match getAuthToken access_token with
  | rejected message =>
      message = "Not authenticated" ∧
      createDemo env access_token request xc = ([], rejected message) ∧
      listDemos env access_token xl = ([], rejected message) ∧
      getDemo env access_token demoId xg = ([], rejected message) ∧
      deleteDemo env access_token demoId xd = ([], rejected message)
  | resolved token =>
      access_token = Some token ∧ token ≠ EmptyString ∧
      Forall (λ sent, ∃ req, sent = [req] ∧ bearer token ∈ f_headers req)
        [fst (createDemo env access_token request xc);
         fst (listDemos env access_token xl);
         fst (getDemo env access_token demoId xg);
         fst (deleteDemo env access_token demoId xd)]
  end.
Proof.
  unfold createDemo, listDemos, getDemo, deleteDemo.
  destruct (getAuthToken access_token) as [token|message] eqn:Hauth.
  - apply getAuthToken_resolved in Hauth as [-> Hne]. split_and!; [done..|].
    repeat (apply Forall_cons_2;
            [eexists; split; [reflexivity|]; simpl;
             rewrite ?elem_of_cons; auto|]).
    apply Forall_nil_2.
  - by apply getAuthToken_rejected in Hauth as [-> _].
Qed.

(** X15.  A call resolves only on a response that is [ok], and
    [createDemo] then gives the body of that response.  On every response
    that is not [ok] each of the four calls rejects.  With a token, the
    message is the [detail] of the body when that is a string and not
    empty, and the message of the call when [detail] is an empty string or
    is missing, in both cases a message that is not empty; it is the text
    of [detail] when that is a truthy value other than a string, and the
    message of the call when it is a falsy one; and it is the message of
    the failure when the body cannot be read, because it is [null] or does
    not parse. *)
Theorem api_calls_settle (env access_token : option string)
    (request : CreateDemoRequest) (demoId : string) :
  let fallbacks :=
    ["Failed to create demo"; "Failed to fetch demos"; "Failed to fetch demo";
     "Failed to delete demo"] in
  let rejections (xc xg : exchange Demo) (xl : exchange (list Demo))
      (xd : exchange unit) :=
    [rejection (snd (createDemo env access_token request xc));
     rejection (snd (listDemos env access_token xl));
     rejection (snd (getDemo env access_token demoId xg));
     rejection (snd (deleteDemo env access_token demoId xd))] in
  (∀ x demo, snd (createDemo env access_token request x) = resolved demo →
             x = ok_json demo) ∧
  (∀ x u, snd (deleteDemo env access_token demoId x) = resolved u →
          x = ok_json tt ∨ ∃ m, x = ok_json_rejects m) ∧
  (∀ xc xg xl xd,
     not_ok xc = true → not_ok xg = true → not_ok xl = true →
     not_ok xd = true →
     Forall is_Some (rejections xc xg xl xd)) ∧
  (∀ token, getAuthToken access_token = resolved token →
     (∀ detail,
        Forall2 (λ r fallback,
                   r = Some (DemoForm.or_else detail fallback) ∧
                   DemoForm.or_else detail fallback ≠ EmptyString ∧
                   (DemoForm.or_else detail fallback = fallback ∨
                    detail = Some (DemoForm.or_else detail fallback)))
          (rejections (not_ok_json detail) (not_ok_json detail)
             (not_ok_json detail) (not_ok_json detail))
          fallbacks) ∧
     (∀ text,
        Forall (λ r, r = Some text)
          (rejections (not_ok_json_value (Some text))
             (not_ok_json_value (Some text)) (not_ok_json_value (Some text))
             (not_ok_json_value (Some text)))) ∧
     Forall2 (λ r fallback, r = Some fallback)
       (rejections (not_ok_json_value None) (not_ok_json_value None)
          (not_ok_json_value None) (not_ok_json_value None))
       fallbacks ∧
     (∀ message,
        Forall (λ r, r = Some message)
          (rejections (not_ok_json_null message) (not_ok_json_null message)
             (not_ok_json_null message) (not_ok_json_null message)
           ++ rejections (not_ok_json_rejects message)
                (not_ok_json_rejects message) (not_ok_json_rejects message)
                (not_ok_json_rejects message)))).
Proof.
  unfold createDemo, listDemos, getDemo, deleteDemo. cbv zeta. split_and!.
  - intros x demo. destruct (getAuthToken access_token); simpl; [|done].
    destruct x; simpl; congruence.
  - intros x u. destruct (getAuthToken access_token); simpl; [|done].
    destruct x as [| [] | | | | |]; simpl; try done; eauto.
  - intros xc xg xl xd Hc Hg Hl Hd.
    destruct (getAuthToken access_token) as [token|m]; simpl.
    + destruct xc; try discriminate Hc; destruct xg; try discriminate Hg;
        destruct xl; try discriminate Hl; destruct xd; try discriminate Hd;
        simpl; repeat (apply Forall_cons_2; [by eexists|]);
        apply Forall_nil_2.
    + repeat (apply Forall_cons_2; [by eexists|]). apply Forall_nil_2.
  - intros token ->. simpl. split_and!.
    + intros detail.
      assert (∀ fallback, DemoForm.truthy fallback = true →
                Some (DemoForm.or_else detail fallback)
                = Some (DemoForm.or_else detail fallback) ∧
                DemoForm.or_else detail fallback ≠ EmptyString ∧
                (DemoForm.or_else detail fallback = fallback ∨
                 detail = Some (DemoForm.or_else detail fallback))) as Hmsg.
      { intros fallback Hf. split; [done|]. split.
        - apply truthy_spec. by apply or_else_truthy.
        - unfold DemoForm.or_else. destruct detail as [d|]; [|by left].
          destruct (DemoForm.truthy d); [by right | by left]. }
      repeat (apply List.Forall2_cons; [by apply Hmsg|]).
      apply List.Forall2_nil.
    + intros text. repeat (apply Forall_cons_2; [done|]). apply Forall_nil_2.
    + repeat (apply List.Forall2_cons; [done|]). apply List.Forall2_nil.
    + intros message. simpl.
      repeat (apply Forall_cons_2; [done|]). apply Forall_nil_2.
Qed.

Example createDemo_detail :
  createDemo None (Some "tok")
    (mk_request "https://two.example" None None)
    (not_ok_json (Some "Rate limit exceeded"))
  = ([mk_fetch "http://localhost:8000/api/demo" "POST"
        [("Content-Type", "application/json"); ("Authorization", "Bearer tok")]
        (Some (mk_request "https://two.example" None None))],
     rejected "Rate limit exceeded").
Proof. reflexivity. Qed.

Example deleteDemo_no_session :
  deleteDemo (Some "https://api.example") None "d1" (ok_json tt)
  = ([], rejected "Not authenticated").
Proof. reflexivity. Qed.

(** A body that is [null], a validation error whose [detail] is an array
    of objects, and a body that does not parse. *)
Example createDemo_unreadable :
  snd (createDemo None (Some "tok")
         (mk_request "https://two.example" None None)
         (not_ok_json_null "Cannot read properties of null (reading 'detail')"))
  = rejected "Cannot read properties of null (reading 'detail')" ∧
  snd (createDemo None (Some "tok")
         (mk_request "https://two.example" None None)
         (not_ok_json_value (Some "[object Object]")))
  = rejected "[object Object]" ∧
  snd (createDemo None (Some "tok")
         (mk_request "https://two.example" None None)
         (not_ok_json_rejects EmptyString))
  = rejected EmptyString.
Proof. auto. Qed.

Example getDemo_fallback :
  getDemo (Some "https://api.example") (Some "tok") "d1" (not_ok_json None)
  = ([mk_fetch "https://api.example/api/demo/d1" "GET"
        [("Authorization", "Bearer tok")] None],
     rejected "Failed to fetch demo").
Proof. reflexivity. Qed.

(** X16.  The label of a status tells the status: two statuses never share
    a label.  Two statuses share a colour only when they are the same or
    both are statuses of a demo in progress. *)
Theorem status_labels_distinct (s1 s2 : demo_status) :
  (getStatusLabel s1 = getStatusLabel s2 → s1 = s2) ∧
  (getStatusColor s1 = getStatusColor s2 ↔
   s1 = s2 ∨ (in_progress s1 = true ∧ in_progress s2 = true)).
Proof.
  split.
  - destruct s1, s2; simpl; intros H; try reflexivity; discriminate H.
  - destruct s1, s2; simpl; split; intros H; try reflexivity; auto;
      try discriminate H;
      destruct H as [H|[H1 H2]]; try discriminate H; try discriminate H1;
      discriminate H2.
Qed.

End ServicesFacts.

(** ** The handlers with their calls *)

Section FlowsFacts.
Import Demo Flows.

Context {URL_record : Type}.
Variable URL : string → option URL_record.

(** X17.  A demo is created and the user sent to the dashboard exactly
    when the URL is not empty and parses, the user is signed in, the session
    has a token and the server answers [ok] with a body.  A submission
    stopped by the validation, by the missing user or by the missing token
    sends no request. *)
Theorem submit_reaches_dashboard (env access_token : option string)
    (productUrl description : string) (user : option string)
    (x : Services.exchange Demo) :
  (DemoForm.router_push "/dashboard"
     ∈ fst (submit URL env access_token productUrl description user x) ↔
   productUrl ≠ EmptyString ∧ is_Some (URL productUrl) ∧ is_Some user ∧
   (∃ token, Services.getAuthToken access_token = Services.resolved token) ∧
   ∃ demo, x = Services.ok_json demo) ∧
  (snd (submit URL env access_token productUrl description user x) ≠ [] →
   productUrl ≠ EmptyString ∧ is_Some (URL productUrl) ∧ is_Some user ∧
   ∃ token, Services.getAuthToken access_token = Services.resolved token).
Proof.
  unfold submit, DemoForm.handleSubmit, Services.createDemo.
  destruct (DemoForm.truthy productUrl) eqn:Ht; simpl.
  2:{ split.
      - rewrite list_elem_of_singleton. split; [done|].
        intros (Hne & _). apply truthy_spec in Hne. congruence.
      - done. }
  apply truthy_spec in Ht.
  destruct (DemoForm.validateUrl URL productUrl) eqn:Hv; simpl.
  2:{ split.
      - rewrite list_elem_of_singleton. split; [done|].
        intros (_ & Hs & _). apply (validateUrl_spec URL) in Hs. congruence.
      - done. }
  apply validateUrl_spec in Hv.
  destruct user as [u|]; simpl.
  2:{ split.
      - rewrite !elem_of_cons, elem_of_nil. split.
        + intros [|[|]]; done.
        + intros (_ & _ & [? [=]] & _).
      - done. }
  destruct (Services.getAuthToken access_token) as [token|m] eqn:Hauth; simpl.
  2:{ split.
      - rewrite !elem_of_cons, elem_of_nil. split.
        + intros [|[|[|[|[|]]]]]; done.
        + intros (_ & _ & _ & [? [=]] & _).
      - done. }
  split.
  - destruct x as [m|demo|m|d|d|m|m]; simpl;
      rewrite !elem_of_cons, elem_of_nil.
    + split; [intros [|[|[|[|[|]]]]]; done | intros (_ & _ & _ & _ & [? [=]])].
    + split; [intros _; split_and!; eauto | auto 10].
    + split; [intros [|[|[|[|[|]]]]]; done | intros (_ & _ & _ & _ & [? [=]])].
    + split; [intros [|[|[|[|[|]]]]]; done | intros (_ & _ & _ & _ & [? [=]])].
    + split; [intros [|[|[|[|[|]]]]]; done | intros (_ & _ & _ & _ & [? [=]])].
    + split; [intros [|[|[|[|[|]]]]]; done | intros (_ & _ & _ & _ & [? [=]])].
    + split; [intros [|[|[|[|[|]]]]]; done | intros (_ & _ & _ & _ & [? [=]])].
  - intros _. split_and!; eauto.
Qed.

(** X18.  When [createDemo] fails, for whatever reason, the form of a
    signed-in user with a valid URL ends not submitting and with the
    message of the failure on display, or with "Failed to create demo.
    Please try again." when that message is empty.  The message is "Not
    authenticated" when the session has no token; with a token it is the
    message of [fetch] when the request fails, the [detail] of a response
    that is not [ok] or "Failed to create demo" when it has none, and the
    message of the failure when the body of such a response cannot be
    read. *)
Theorem submit_shows_reason (env access_token : option string)
    (productUrl description user : string) (x : Services.exchange Demo)
    (message : string) (st : DemoForm.form_state) :
  productUrl ≠ EmptyString → is_Some (URL productUrl) →
  snd (Services.createDemo env access_token
         (Services.of_form
            (DemoForm.mk_request productUrl (DemoForm.or_undefined description)))
         x)
  = Services.rejected message →
  let final :=
    foldl DemoForm.apply_action st
      (fst (submit URL env access_token productUrl description (Some user) x)) in
  DemoForm.f_isSubmitting final = false ∧
  DemoForm.f_error final ≠ EmptyString ∧
  DemoForm.f_error final
  = DemoForm.or_else (Some message) "Failed to create demo. Please try again." ∧
  match Services.getAuthToken access_token with
  | Services.rejected _ => message = "Not authenticated"
  | Services.resolved _ =>
      match x with
      | Services.fetch_rejects m => message = m
      | Services.ok_json _ => False
      | Services.ok_json_rejects m => message = m
      | Services.not_ok_json detail =>
          message = DemoForm.or_else detail "Failed to create demo"
      | Services.not_ok_json_value detail =>
          message = default "Failed to create demo" detail
      | Services.not_ok_json_null m => message = m
      | Services.not_ok_json_rejects m => message = m
      end
  end.
Proof.
  intros Hne Hurl. unfold submit, DemoForm.handleSubmit.
  rewrite (proj2 (truthy_spec productUrl) Hne).
  rewrite (proj2 (validateUrl_spec URL productUrl) Hurl). simpl.
  intros Hrej. rewrite Hrej. simpl.
  assert (DemoForm.or_else (Some message)
            "Failed to create demo. Please try again." ≠ EmptyString) as Hmsg.
  { apply truthy_spec. by apply or_else_truthy. }
  split_and!; [done..|].
  unfold Services.createDemo in Hrej.
  destruct (Services.getAuthToken access_token) as [token|m] eqn:Hauth;
    simpl in Hrej.
  - destruct x; simpl in Hrej; congruence.
  - apply getAuthToken_rejected in Hauth as [-> _]. congruence.
Qed.

(** X19.  Whatever happens, [handleSubmit] does not leave the form
    submitting: if the form was not submitting before the handler ran, it
    is not afterwards, on every path and however [createDemo] settles. *)
Theorem handleSubmit_not_left_submitting
    (productUrl description : string) (user : option string)
    (response : DemoForm.settled) (st : DemoForm.form_state) :
  DemoForm.f_isSubmitting st = false →
  DemoForm.f_isSubmitting
    (foldl DemoForm.apply_action st
       (DemoForm.handleSubmit URL productUrl description user response))
  = false.
Proof.
  intros Hst. unfold DemoForm.handleSubmit.
  destruct (DemoForm.truthy productUrl); simpl; [|done].
  destruct (DemoForm.validateUrl URL productUrl); simpl; [|done].
  destruct user; simpl; [|done]. by destruct response.
Qed.


(** X20.  The form asks the page for the sign-in only when there is no
    user, so that the page, which is given the same user, then always opens
    the modal in sign-up mode, and never takes the branch of a signed-in
    user. *)
Theorem onAuthRequired_opens_signup
    (productUrl description : string) (user : option string)
    (response : DemoForm.settled) :
  home_during URL productUrl description user response = [] ∨
  (user = None ∧
   home_during URL productUrl description user response
   = [setAuthMode true; setShowAuthModal true]).
Proof.
  unfold home_during, DemoForm.handleSubmit.
  destruct (DemoForm.truthy productUrl); simpl; [|by left].
  destruct (DemoForm.validateUrl URL productUrl); simpl; [|by left].
  destruct user; simpl; [|by right].
  left. by destruct response.
Qed.

End FlowsFacts.

(** The request fails on the network: the form shows the message of
    [fetch]. *)
Lemma submit_shows_reason_witness :
  let final :=
    foldl DemoForm.apply_action (DemoForm.mk_form EmptyString false)
      (fst (Flows.submit Samples.parse_https None (Some "tok")
              "https://two.example" "tour" (Some "u1")
              (Services.fetch_rejects "Failed to fetch"))) in
  DemoForm.f_isSubmitting final = false ∧
  DemoForm.f_error final ≠ EmptyString ∧
  DemoForm.f_error final = "Failed to fetch" ∧
  "Failed to fetch" = "Failed to fetch".
Proof.
  apply (submit_shows_reason Samples.parse_https None (Some "tok")
           "https://two.example" "tour" "u1"
           (Services.fetch_rejects "Failed to fetch") "Failed to fetch"
           (DemoForm.mk_form EmptyString false)).
  - discriminate.
  - vm_compute. eauto.
  - reflexivity.
Defined.

(** A body that does not parse, with an empty message: the form falls back
    on its own message. *)
Example submit_unreadable_body :
  DemoForm.f_error
    (foldl DemoForm.apply_action (DemoForm.mk_form EmptyString false)
       (fst (Flows.submit Samples.parse_https None (Some "tok")
               "https://two.example" "tour" (Some "u1")
               (Services.not_ok_json_rejects EmptyString))))
  = "Failed to create demo. Please try again.".
Proof. reflexivity. Qed.

Lemma handleSubmit_not_left_submitting_witness :
  DemoForm.f_isSubmitting
    (foldl DemoForm.apply_action (DemoForm.mk_form "stale" false)
       (DemoForm.handleSubmit Samples.parse_https "https://two.example" "tour" (Some "u1")
          (DemoForm.rejected None)))
  = false.
Proof.
  apply (handleSubmit_not_left_submitting Samples.parse_https "https://two.example" "tour"
           (Some "u1") (DemoForm.rejected None) (DemoForm.mk_form "stale" false)).
  reflexivity.
Defined.


Section DeleteFlowFacts.
Import Demo Flows.

(** X21.  The handler sets the list exactly when the user confirmed, the
    session has a token and the server answered [ok].  The list it sets is
    the list of the render the handler belongs to, [demos], without the
    demos of that id, whatever list the page shows by then; otherwise the
    list on display stays as it is.  A request is sent only after the
    confirmation and with a token.  When the user confirmed, the page ends
    with no demo marked as being deleted; when the user declined, the page
    is left as it was. *)
Theorem delete_drops_on_success (env access_token : option string)
    (demos : list Demo) (confirmed : bool) (demoId : string)
    (x : Services.exchange unit) (st : Dashboard.page_state) :
  let trace := fst (delete env access_token demos confirmed demoId x) in
  let final := foldl Dashboard.apply_action st trace in
  let succeeds :=
    confirmed = true ∧
    (∃ token, Services.getAuthToken access_token = Services.resolved token) ∧
    (x = Services.ok_json tt ∨ ∃ m, x = Services.ok_json_rejects m) in
  ((∃ v, Dashboard.setDemos v ∈ trace) ↔ succeeds) ∧
  (succeeds →
   Dashboard.p_demos final
   = List.filter (λ d, negb (String.eqb (id d) demoId)) demos) ∧
  (¬ succeeds → Dashboard.p_demos final = Dashboard.p_demos st) ∧
  (snd (delete env access_token demos confirmed demoId x) ≠ [] →
   confirmed = true ∧
   ∃ token, Services.getAuthToken access_token = Services.resolved token) ∧
  (confirmed = true → Dashboard.p_deletingId final = None) ∧
  (confirmed = false → final = st).
Proof.
  unfold delete, Dashboard.handleDelete, Services.deleteDemo. cbv zeta.
  destruct confirmed; simpl.
  2:{ split_and!; [|by intros [[=] _]|done|done|done|done].
      split; [|by intros [[=] _]].
      intros [v Hv]. apply list_elem_of_singleton in Hv. discriminate. }
  destruct (Services.getAuthToken access_token) as [token|m] eqn:Hauth; simpl.
  2:{ split_and!; [|by intros (_ & [? [=]] & _)|done|done|done|done].
      split; [|by intros (_ & [? [=]] & _)].
      intros [v Hv]. rewrite !elem_of_cons, elem_of_nil in Hv.
      destruct Hv as [|[|[|[|[|]]]]]; done. }
  assert (∀ m : string,
            ¬ ∃ v, Dashboard.setDemos v
                     ∈ [Dashboard.confirm "Are you sure you want to delete this demo?";
                        Dashboard.setDeletingId (Some demoId);
                        Dashboard.deleteDemo demoId;
                        Dashboard.alert m; Dashboard.setDeletingId None]) as Hno.
  { intros m [v Hv]. rewrite !elem_of_cons, elem_of_nil in Hv.
    destruct Hv as [|[|[|[|[|]]]]]; done. }
  assert (∃ v, Dashboard.setDemos v
                 ∈ [Dashboard.confirm "Are you sure you want to delete this demo?";
                    Dashboard.setDeletingId (Some demoId);
                    Dashboard.deleteDemo demoId;
                    Dashboard.setDemos
                      (List.filter (λ d, negb (String.eqb (id d) demoId)) demos);
                    Dashboard.setDeletingId None]) as Hyes.
  { eexists. rewrite !elem_of_cons. eauto 10. }
  destruct x as [m| [] |m|d|d|m|m]; simpl.
  - split_and!; [|by intros (_ & _ & [?|[? ?]])|done|eauto|done|done].
    split; [by intros ?%Hno | by intros (_ & _ & [?|[? ?]])].
  - split_and!; [|done| |eauto|done|done].
    + split; [eauto 10 | done].
    + intros Hn. exfalso. apply Hn. eauto 10.
  - split_and!; [|done| |eauto|done|done].
    + split; [eauto 10 | done].
    + intros Hn. exfalso. apply Hn. eauto 10.
  - split_and!; [|by intros (_ & _ & [?|[? ?]])|done|eauto|done|done].
    split; [by intros ?%Hno | by intros (_ & _ & [?|[? ?]])].
  - split_and!; [|by intros (_ & _ & [?|[? ?]])|done|eauto|done|done].
    split; [by intros ?%Hno | by intros (_ & _ & [?|[? ?]])].
  - split_and!; [|by intros (_ & _ & [?|[? ?]])|done|eauto|done|done].
    split; [by intros ?%Hno | by intros (_ & _ & [?|[? ?]])].
  - split_and!; [|by intros (_ & _ & [?|[? ?]])|done|eauto|done|done].
    split; [by intros ?%Hno | by intros (_ & _ & [?|[? ?]])].
Qed.

(** Two deletes that start from the same render, of [d1] and then of [d3]:
    the second sets the list of that render without [d3], and [d1], which
    the first had removed, is on display again. *)
Example delete_overlapping :
  let shown := [Samples.demo1; Samples.demo2; MoreSamples.demo3] in
  let first := fst (delete None (Some "tok") shown true "d1" (Services.ok_json tt)) in
  let second := fst (delete None (Some "tok") shown true "d3" (Services.ok_json tt)) in
  Dashboard.p_demos
    (foldl Dashboard.apply_action
       (foldl Dashboard.apply_action (Dashboard.mk_page shown None) first)
       second)
  = [Samples.demo1; Samples.demo2].
Proof. reflexivity. Qed.

(** A declined confirmation leaves the mark of a delete that is under
    way. *)
Example delete_declined :
  foldl Dashboard.apply_action
    (Dashboard.mk_page [Samples.demo1; Samples.demo2] (Some "d1"))
    (fst (delete None (Some "tok") [Samples.demo1; Samples.demo2] false "d2"
            (Services.ok_json tt)))
  = Dashboard.mk_page [Samples.demo1; Samples.demo2] (Some "d1").
Proof. reflexivity. Qed.

End DeleteFlowFacts.

(** ** The form, its storage and its effects *)

Section FormEffectsFacts.
Import DemoForm FormEffects.

Context {URL_record : Type}.
Variable URL : string → option URL_record.

Lemma present_Some (s : string) :
  present (Some s) = if truthy s then Some s else None.
Proof. reflexivity. Qed.

Lemma not_truthy (s : string) : truthy s = false → s = EmptyString.
Proof.
  intros Hs. destruct (decide (s = EmptyString)) as [|Hne]; [done|].
  apply truthy_spec in Hne. congruence.
Qed.

(** X22.  What is typed survives a reload.  After [handleUrlChange] or
    [handleDescriptionChange], a component that mounts afresh on what the
    handler stored shows the same URL and the same description as the
    component the handler left; it shows the expanded form exactly when
    the URL is not empty. *)
Theorem typed_text_survives_reload (st : state) (value : string) :
  let after_url :=
    run st (handleUrlChange (s_description st) (s_showExpanded st) value) in
  let after_desc :=
    run st (handleDescriptionChange (s_productUrl st) value) in
  let reload (s : state) := run (mounted (s_saved s)) (load_saved (s_saved s)) in
  (s_productUrl after_url = value ∧
   s_productUrl (reload after_url) = value ∧
   s_description (reload after_url) = s_description after_url ∧
   s_showExpanded (reload after_url) = truthy value) ∧
  (s_description after_desc = value ∧
   s_productUrl (reload after_desc) = s_productUrl after_desc ∧
   s_description (reload after_desc) = value ∧
   s_showExpanded (reload after_desc) = truthy (s_productUrl st)).
Proof.
  cbv zeta. split.
  - unfold handleUrlChange, run.
    destruct (truthy value && negb (s_showExpanded st)) eqn:Hexp; simpl;
      unfold load_saved, written; simpl;
      destruct (truthy value) eqn:Hv, (truthy (s_description st)) eqn:Hd; simpl;
      rewrite ?(not_truthy _ Hv), ?(not_truthy _ Hd); done.
  - unfold handleDescriptionChange, run. simpl.
    unfold load_saved, written; simpl.
    destruct (truthy value) eqn:Hv, (truthy (s_productUrl st)) eqn:Hd; simpl;
      rewrite ?(not_truthy _ Hv), ?(not_truthy _ Hd); done.
Qed.

Lemma requests_act_handleSubmit (productUrl description : string)
    (user : option string) (response : settled) :
  requests (act <$> handleSubmit URL productUrl description user response)
  = if truthy productUrl && validateUrl URL productUrl
       && bool_decide (is_Some user)
    then [mk_request productUrl (or_undefined description)] else [].
Proof.
  unfold handleSubmit.
  destruct (truthy productUrl); simpl; [|done].
  destruct (validateUrl URL productUrl); simpl; [|done].
  destruct user; simpl; [|done]. by destruct response.
Qed.

(** X23.  A request made while signed out is submitted once the user has
    signed in, and once only.  [handleSubmit] without a user stores the
    request with [autoSubmit] set; the effect that runs when the user
    arrives then calls [createDemo] exactly once, for the URL and the
    description of the form; it leaves the storage empty when the call
    resolved and with [autoSubmit] cleared when it did not, so that the
    effect, should it run again, submits nothing. *)
Theorem request_submitted_once_after_sign_in
    (productUrl description user : string) (st : state)
    (response0 response response' : settled) :
  productUrl ≠ EmptyString → is_Some (URL productUrl) →
  let signed_out :=
    run st (act <$> handleSubmit URL productUrl description None response0) in
  let effect :=
    auto_submit URL productUrl description (Some user) (s_saved signed_out)
      response in
  let signed_in := run signed_out effect in
  s_saved signed_out = written (mk_saved productUrl description true) ∧
  requests effect = [mk_request productUrl (or_undefined description)] ∧
  s_saved signed_in
  = match response with
    | resolved _ => absent
    | rejected _ => written (mk_saved productUrl description false)
    end ∧
  auto_submit URL productUrl description (Some user) (s_saved signed_in)
    response' = [].
Proof.
  intros Hne Hurl. cbv zeta.
  pose proof (proj2 (truthy_spec productUrl) Hne) as Ht.
  pose proof (proj2 (validateUrl_spec URL productUrl) Hurl) as Hv.
  assert (run st (act <$> handleSubmit URL productUrl description None response0)
          = mk_state (s_productUrl st) (s_description st) (s_showExpanded st)
              (s_form st) (written (mk_saved productUrl description true)))
    as Hout.
  { unfold handleSubmit. rewrite Ht, Hv. reflexivity. }
  rewrite Hout. simpl. rewrite Ht. split; [done|].
  unfold handleSubmit. rewrite Ht, Hv. simpl.
  split; [by destruct response|].
  destruct response as [demo|message]; simpl; rewrite ?Ht; done.
Qed.


(** X24.  The effect submits what the form of its render holds, not what it
    finds in the storage: every request it makes is for the URL of the
    form.  So when it runs in a render whose form is still empty, it
    clears [autoSubmit], sets the error of an empty URL and calls nothing:
    the stored request is then never submitted by the effect. *)
Theorem auto_submit_uses_the_form
    (productUrl description : string) (user : option string)
    (saved : item) (response response' : settled) (st : state) :
  (∀ r, r ∈ requests (auto_submit URL productUrl description user saved response) →
        product_url r = productUrl ∧ productUrl ≠ EmptyString ∧
        is_Some (URL productUrl)) ∧
  (productUrl = EmptyString →
   ∀ u desc who, truthy u = true → user = Some who →
     saved = object (Some u) desc true →
     auto_submit URL productUrl description user saved response
     = [act (localStorage_setItem DEMO_STORAGE_KEY (mk_saved u description false));
        act (setError "Please enter a product URL")] ∧
     ∀ productUrl' description',
       auto_submit URL productUrl' description' user
         (s_saved (run st (auto_submit URL productUrl description user saved response)))
         response' = []).
Proof.
  split.
  - intros r. unfold auto_submit.
    destruct user as [who|]; [|by intros ?%elem_of_nil].
    destruct saved as [| |url desc flag]; simpl;
      [by intros ?%elem_of_nil | by intros ?%elem_of_nil |].
    destruct (present url) as [u|]; [|by intros ?%elem_of_nil].
    destruct flag; [|by intros ?%elem_of_nil].
    change (requests (act (localStorage_setItem DEMO_STORAGE_KEY
                             (mk_saved u description false)) :: ?l))
      with (requests l).
    rewrite requests_act_handleSubmit.
    destruct (truthy productUrl) eqn:Ht; simpl; [|by intros ?%elem_of_nil].
    destruct (validateUrl URL productUrl) eqn:Hv; simpl; [|by intros ?%elem_of_nil].
    intros ->%list_elem_of_singleton. simpl.
    by rewrite <- truthy_spec, <- (validateUrl_spec URL).
  - intros -> u desc who Hu -> ->. unfold auto_submit. simpl. rewrite Hu.
    split; [done|]. intros productUrl' description'. simpl. by rewrite Hu.
Qed.

End FormEffectsFacts.

Section FormEffectsSamples.
Import DemoForm FormEffects.

Lemma request_submitted_once_after_sign_in_witness :
  let signed_out :=
    run MoreSamples.typed
      (act <$> handleSubmit Samples.parse_https "https://two.example" "tour"
                 None (rejected None)) in
  let effect :=
    auto_submit Samples.parse_https "https://two.example" "tour" (Some "u1")
      (s_saved signed_out) (resolved Samples.demo2) in
  let signed_in := run signed_out effect in
  s_saved signed_out = written (mk_saved "https://two.example" "tour" true) ∧
  requests effect = [mk_request "https://two.example" (Some "tour")] ∧
  s_saved signed_in = absent ∧
  auto_submit Samples.parse_https "https://two.example" "tour" (Some "u1")
    (s_saved signed_in) (rejected None) = [].
Proof.
  apply (request_submitted_once_after_sign_in Samples.parse_https
           "https://two.example" "tour" "u1" MoreSamples.typed
           (rejected None) (resolved Samples.demo2) (rejected None)).
  - discriminate.
  - vm_compute. eauto.
Defined.

End FormEffectsSamples.

(** ** The dashboard: the list of demos *)

Section FetchFacts.
Import Demo Fetch.

Variable getTime : string → option Z.

Implicit Types (a b d : Demo) (l data : list Demo).

Lemma insert_Permutation a l : insert getTime a l ≡ₚ a :: l.
Proof.
  induction l as [|b l IH]; simpl; [done|].
  destruct (stays_before getTime a b); [done|].
  rewrite IH. apply Permutation_swap.
Qed.

Lemma sort_Permutation data : sort getTime data ≡ₚ data.
Proof.
  induction data as [|a data IH]; simpl; [done|].
  rewrite insert_Permutation. by rewrite IH.
Qed.

Lemma stays_before_true a b ta tb :
  getTime (created_at a) = Some ta → getTime (created_at b) = Some tb →
  stays_before getTime a b = true ↔ tb <= ta.
Proof.
  intros Ha Hb. unfold stays_before, comparator. rewrite Ha, Hb.
  rewrite Z.leb_le. lia.
Qed.

Lemma not_newer_trans a b c :
  not_newer getTime a b → not_newer getTime b c → not_newer getTime a c.
Proof.
  intros (ta & tb & Ha & Hb & Hab) (tb' & tc & Hb' & Hc & Hbc).
  exists ta, tc. split_and!; [done..|]. rewrite Hb in Hb'. injection Hb' as <-. lia.
Qed.

Lemma insert_sorted a l :
  is_Some (getTime (created_at a)) →
  Forall (λ d, is_Some (getTime (created_at d))) l →
  StronglySorted (not_newer getTime) l →
  StronglySorted (not_newer getTime) (insert getTime a l).
Proof.
  intros [ta Ha] Hl Hs. induction Hs as [|b l Hs IH Hb]; simpl.
  - repeat constructor.
  - apply Forall_cons in Hl as [[tb Htb] Hl].
    destruct (stays_before getTime a b) eqn:Hab.
    + apply (stays_before_true a b ta tb Ha Htb) in Hab.
      assert (not_newer getTime a b) as Hnab by (exists ta, tb; done).
      constructor; [by constructor|]. constructor; [done|].
      eapply Forall_impl; [exact Hb|]. intros c Hc.
      by eapply not_newer_trans.
    + constructor; [by apply IH|].
      rewrite insert_Permutation. constructor; [|done].
      exists tb, ta. split_and!; [done..|].
      destruct (Z.le_gt_cases tb ta) as [Hle|Hgt]; [|lia].
      apply (stays_before_true a b ta tb Ha Htb) in Hle. congruence.
Qed.

Lemma filter_insert_on t a l :
  is_Some (getTime (created_at a)) →
  Forall (λ d, is_Some (getTime (created_at d))) l →
  StronglySorted (not_newer getTime) l →
  List.filter (created_on getTime t) (insert getTime a l)
  = List.filter (created_on getTime t) (a :: l).
Proof.
  intros [ta Ha] Hl Hs. induction Hs as [|b l Hs IH Hb]; [done|].
  apply Forall_cons in Hl as [[tb Htb] Hl]. simpl.
  destruct (stays_before getTime a b) eqn:Hab; [done|].
  simpl. rewrite IH by done. simpl.
  assert (ta < tb) as Hlt.
  { destruct (Z.le_gt_cases tb ta) as [Hle|Hgt]; [|lia].
    apply (stays_before_true a b ta tb Ha Htb) in Hle. congruence. }
  destruct (created_on getTime t b) eqn:Eb, (created_on getTime t a) eqn:Ea;
    try done.
  unfold created_on in Ea, Eb. rewrite Ha in Ea. rewrite Htb in Eb.
  apply bool_decide_eq_true in Ea, Eb. simplify_eq. lia.
Qed.

Lemma sorted_newest_first data :
  Forall (λ d, is_Some (getTime (created_at d))) data →
  StronglySorted (not_newer getTime) (sort getTime data) ∧
  ∀ t, List.filter (created_on getTime t) (sort getTime data)
       = List.filter (created_on getTime t) data.
Proof.
  intros Hall. induction data as [|a data IH]; simpl.
  - split; [constructor | done].
  - apply Forall_cons in Hall as [Ha Hall].
    destruct (IH Hall) as [IHs IHf].
    assert (Forall (λ d, is_Some (getTime (created_at d))) (sort getTime data))
      as Hall' by by rewrite sort_Permutation.
    split; [by apply insert_sorted|].
    intros t. rewrite filter_insert_on by done. simpl. by rewrite IHf.
Qed.




(** X26.  A fetch always ends the loading and never touches the mark of
    the demo being deleted.  When it fails it leaves the list of demos as
    it is and shows an error that is not empty; when it succeeds it clears
    the error and shows the response as the engine has sorted it, which,
    when every date of the response parses, is the response newest
    first. *)
Theorem fetchDemos_settles (Array_sort : list Demo → list Demo)
    (response : Services.settled (list Demo)) (st : page) :
  sorts_as_prescribed getTime Array_sort →
  let final := foldl apply_action st (fetchDemos Array_sort response) in
  p_loading final = false ∧
  match response with
  | Services.resolved data =>
      Dashboard.p_demos (p_list final) = Array_sort data ∧
      p_error final = EmptyString ∧
      (dates_parse getTime data →
       Dashboard.p_demos (p_list final) = sort getTime data ∧
       Dashboard.p_demos (p_list final) ≡ₚ data ∧
       StronglySorted (not_newer getTime) (Dashboard.p_demos (p_list final)))
  | Services.rejected message =>
      Dashboard.p_demos (p_list final) = Dashboard.p_demos (p_list st) ∧
      p_error final ≠ EmptyString ∧
      (message ≠ EmptyString → p_error final = message)
  end ∧
  Dashboard.p_deletingId (p_list final) = Dashboard.p_deletingId (p_list st).
Proof.
  intros Hsort. cbv zeta. destruct response as [data|message]; simpl.
  - split_and!; [done..| |done]. intros Hdates.
    rewrite (Hsort data Hdates). split; [done|].
    split; [apply sort_Permutation|].
    by destruct (sorted_newest_first data Hdates) as [? _].
  - split_and!; [done..| | |done].
    + apply truthy_spec. by apply (or_else_truthy (Some message)).
    + intros Hne. apply truthy_spec in Hne. by rewrite Hne.
Qed.

End FetchFacts.


Lemma fetchDemos_settles_witness :
  let final :=
    foldl Fetch.apply_action
      (Fetch.mk_page (Dashboard.mk_page [] (Some "d9")) "stale" true)
      (Fetch.fetchDemos (Fetch.sort MoreSamples.time_of)
         (Services.resolved [Samples.demo1; Samples.demo2; MoreSamples.demo3])) in
  Fetch.p_loading final = false ∧
  (Dashboard.p_demos (Fetch.p_list final)
   = Fetch.sort MoreSamples.time_of
       [Samples.demo1; Samples.demo2; MoreSamples.demo3] ∧
   Fetch.p_error final = EmptyString ∧
   (Fetch.dates_parse MoreSamples.time_of
      [Samples.demo1; Samples.demo2; MoreSamples.demo3] →
    Dashboard.p_demos (Fetch.p_list final)
    = Fetch.sort MoreSamples.time_of
        [Samples.demo1; Samples.demo2; MoreSamples.demo3] ∧
    Dashboard.p_demos (Fetch.p_list final)
      ≡ₚ [Samples.demo1; Samples.demo2; MoreSamples.demo3] ∧
    StronglySorted (Fetch.not_newer MoreSamples.time_of)
      (Dashboard.p_demos (Fetch.p_list final)))) ∧
  Dashboard.p_deletingId (Fetch.p_list final) = Some "d9".
Proof.
  apply (fetchDemos_settles MoreSamples.time_of (Fetch.sort MoreSamples.time_of)
           (Services.resolved [Samples.demo1; Samples.demo2; MoreSamples.demo3])
           (Fetch.mk_page (Dashboard.mk_page [] (Some "d9")) "stale" true)).
  intros data _. reflexivity.
Defined.

Example sort_newest_first :
  Fetch.sort MoreSamples.time_of [Samples.demo1; Samples.demo2; MoreSamples.demo3]
  = [Samples.demo2; MoreSamples.demo3; Samples.demo1].
Proof. reflexivity. Qed.

(** ** The sign-in form *)

Section AuthModalFacts.
Import AuthModal.
Local Open Scope list_scope.

Implicit Types (r : regex) (s : text) (c : N).

Lemma nullable_spec r : nullable r = true ↔ matches r [].
Proof.
  split.
  - induction r as [| |p|r1 IH1 r2 IH2|r1 IH1 r2 IH2|r IH]; simpl;
      try discriminate.
    + intros _. constructor.
    + intros [H1 H2]%andb_true_iff.
      apply (matches_seq r1 r2 [] []); auto.
    + intros [H|H]%orb_true_iff;
        [apply matches_alt_l | apply matches_alt_r]; auto.
    + intros _. constructor.
  - intros H. remember [] as s eqn:Hs.
    induction H as [|p c Hp|r1 r2 s1 s2 _ IH1 _ IH2|r1 r2 s _ IH|r1 r2 s _ IH
                    |r|r s1 s2 _ _ _ _]; simpl; try done.
    + apply app_eq_nil in Hs as [-> ->]. by rewrite IH1, IH2.
    + by rewrite IH.
    + rewrite IH by done. apply orb_true_r.
Qed.

Lemma matches_seq_inv r1 r2 s :
  matches (Seq r1 r2) s ↔ ∃ s1 s2, s = s1 ++ s2 ∧ matches r1 s1 ∧ matches r2 s2.
Proof.
  split.
  - inversion 1; subst. eauto.
  - intros (s1 & s2 & -> & H1 & H2). by constructor.
Qed.

Lemma star_cons_inv r c s :
  matches (Star r) (c :: s) →
  ∃ s1 s2, s = s1 ++ s2 ∧ matches r (c :: s1) ∧ matches (Star r) s2.
Proof.
  intros H. remember (Star r) as r' eqn:Hr. remember (c :: s) as w eqn:Hw.
  revert s Hw.
  induction H as [| | | | |r0|r0 s1 s2 H1 _ H2 IH2]; intros w' Hw; try done.
  injection Hr as ->.
  destruct s1 as [|c1 s1]; simpl in Hw.
  - by apply IH2.
  - injection Hw as -> <-. eauto.
Qed.

Lemma deriv_spec r c s : matches (deriv c r) s ↔ matches r (c :: s).
Proof.
  revert s. induction r as [| |p|r1 IH1 r2 IH2|r1 IH1 r2 IH2|r IH]; intros s; simpl.
  - split; inversion 1.
  - split; inversion 1.
  - destruct (p c) eqn:Hp; split; inversion 1; subst.
    + by constructor.
    + constructor.
    + congruence.
  - split.
    + inversion 1 as [| | |? ? ? Hl|? ? ? Hr| |]; subst.
      * apply matches_seq_inv in Hl as (s1 & s2 & -> & H1 & H2).
        apply IH1 in H1. by apply (matches_seq r1 r2 (c :: s1) s2).
      * destruct (nullable r1) eqn:Hn; [|inversion Hr].
        apply nullable_spec in Hn. apply IH2 in Hr.
        by apply (matches_seq r1 r2 [] (c :: s)).
    + intros (s1 & s2 & Heq & H1 & H2)%matches_seq_inv.
      destruct s1 as [|c1 s1]; simpl in Heq.
      * subst s2. apply matches_alt_r.
        rewrite (proj2 (nullable_spec r1) H1). by apply IH2.
      * injection Heq as <- ->. apply matches_alt_l.
        constructor; [by apply IH1 | done].
  - split.
    + inversion 1; subst; [apply matches_alt_l; by apply IH1
                          |apply matches_alt_r; by apply IH2].
    + inversion 1; subst; [apply matches_alt_l; by apply IH1
                          |apply matches_alt_r; by apply IH2].
  - split.
    + intros (s1 & s2 & -> & H1 & H2)%matches_seq_inv.
      apply IH in H1. by apply (matches_star_cons r (c :: s1) s2).
    + intros (s1 & s2 & -> & H1 & H2)%star_cons_inv.
      constructor; [by apply IH | done].
Qed.

(** The matcher decides the words of the expression. *)
Lemma test_spec r s : test r s = true ↔ matches r s.
Proof.
  revert r. induction s as [|c s IH]; intros r; simpl.
  - apply nullable_spec.
  - rewrite IH. apply deriv_spec.
Qed.

Lemma matches_star_class p s :
  matches (Star (Class p)) s ↔ Forall (λ c, p c = true) s.
Proof.
  split.
  - intros H. remember (Star (Class p)) as r eqn:Hr.
    induction H as [| | | | |r0|r0 s1 s2 H1 _ H2 IH2]; try done.
    injection Hr as ->. inversion H1; subst. simpl.
    constructor; [done | by apply IH2].
  - induction 1 as [|c s Hc _ IH]; [constructor|].
    apply (matches_star_cons (Class p) [c] s); [by constructor | done].
Qed.

Lemma matches_plus_class p s :
  matches (Plus (Class p)) s ↔ s ≠ [] ∧ Forall (λ c, p c = true) s.
Proof.
  unfold Plus. split.
  - inversion 1 as [| |? ? s1 s2 H1 H2| | | |]; subst.
    inversion H1; subst. apply matches_star_class in H2.
    split; [done | by constructor].
  - intros [Hne Hall]. destruct Hall as [|c s Hc Hall]; [done|].
    apply (matches_seq (Class p) (Star (Class p)) [c] s); [by constructor|].
    by apply matches_star_class.
Qed.

Lemma matches_class_seq (q : N → bool) r s :
  matches (Seq (Class q) r) s ↔ ∃ c s', s = c :: s' ∧ q c = true ∧ matches r s'.
Proof.
  split.
  - inversion 1 as [| |? ? s1 s2 H1 H2| | | |]; subst.
    inversion H1; subst. simpl. eauto.
  - intros (c & s' & -> & Hq & Hr).
    apply (matches_seq (Class q) r [c] s'); [by constructor | done].
Qed.

(** X27.  [validateEmail] accepts exactly the strings [a@b.c] in which
    [a], [b] and [c] are not empty and hold neither white space nor an
    [@]; so an address it accepts has one [@], no white space, and a full
    stop after the [@] with something on either side. *)
Theorem validateEmail_spec s :
  validateEmail s = true ↔
  ∃ a b d : text,
    s = a ++ [commercial_at] ++ b ++ [full_stop] ++ d ∧
    a ≠ [] ∧ b ≠ [] ∧ d ≠ [] ∧
    Forall (λ u, plain u = true) a ∧ Forall (λ u, plain u = true) b ∧
    Forall (λ u, plain u = true) d.
Proof.
  unfold validateEmail, emailRegex. rewrite test_spec. split.
  - intros (a & w1 & -> & Ha & H)%matches_seq_inv.
    apply matches_plus_class in Ha as [Ha Hpa].
    apply matches_class_seq in H as (x & w2 & -> & Hx & H).
    apply matches_seq_inv in H as (b & w3 & -> & Hb & H).
    apply matches_plus_class in Hb as [Hb Hpb].
    apply matches_class_seq in H as (y & d & -> & Hy & Hd).
    apply matches_plus_class in Hd as [Hd Hpd].
    apply N.eqb_eq in Hx as <-. apply N.eqb_eq in Hy as <-.
    exists a, b, d. done.
  - intros (a & b & d & -> & Ha & Hb & Hd & Hpa & Hpb & Hpd).
    apply matches_seq; [by apply matches_plus_class|].
    apply matches_class_seq. exists commercial_at, (b ++ [full_stop] ++ d).
    split_and!; [done|apply N.eqb_refl|].
    apply matches_seq; [by apply matches_plus_class|].
    apply matches_class_seq. exists full_stop, d.
    split_and!; [done|apply N.eqb_refl|]. by apply matches_plus_class.
Qed.

Lemma blank_spec s : blank s = true ↔ s = [].
Proof. by destruct s. Qed.

Lemma validateEmail_not_blank s : validateEmail s = true → s ≠ [].
Proof. by destruct s. Qed.

Lemma size_insert_ne_0 (k v : string) (e : gmap string string) :
  size (<[k := v]> e) ≠ 0%nat.
Proof.
  intros Hs. apply map_size_empty_iff in Hs. by apply insert_non_empty in Hs.
Qed.

(** A check that may report one of two messages under a key. *)
Lemma check_empty (A B : bool) (k v1 v2 : string) (e : gmap string string) :
  (if A then <[k := v1]> e else if B then <[k := v2]> e else e) = ∅ ↔
  A = false ∧ B = false ∧ e = ∅.
Proof.
  destruct A, B; simpl; split; try (intros (? & ? & ?); done);
    try (intros ?%insert_non_empty; done); done.
Qed.

Lemma check_dom (A B : bool) (k v1 v2 : string) (e : gmap string string) :
  dom (if A then <[k := v1]> e else if B then <[k := v2]> e else e)
  ⊆ {[k]} ∪ dom e.
Proof. destruct A, B; simpl; rewrite ?dom_insert_L; set_solver. Qed.

Lemma check_lookup_ne (A B : bool) (k k' v1 v2 : string) (e : gmap string string) :
  k ≠ k' →
  (if A then <[k := v1]> e else if B then <[k := v2]> e else e) !! k' = e !! k'.
Proof. intros Hne. destruct A, B; simpl; by rewrite ?lookup_insert_ne. Qed.

Lemma check_lookup_eq (A B : bool) (k v1 v2 : string) (e : gmap string string) :
  e !! k = None →
  (if A then <[k := v1]> e else if B then <[k := v2]> e else e) !! k = None ↔
  A = false ∧ B = false.
Proof.
  intros He. destruct A, B; simpl; rewrite ?lookup_insert_eq, ?He; split;
    try done; intros [? ?]; done.
Qed.

(** One check with one message is the case [B = false]. *)
Lemma check_one (A : bool) (k v : string) (e : gmap string string) :
  (if A then <[k := v]> e else e)
  = (if A then <[k := v]> e else if false then <[k := v]> e else e).
Proof. by destruct A. Qed.

(** X28.  [validateForm] accepts a form exactly when the email has the form
    [validateEmail] asks for, the password is not empty and, to sign up,
    the password has at least 8 code units, the name is not empty and the
    confirmation repeats the password.  It accepts exactly when it reports
    no error; to log in it reports errors on the email and the password
    only; and it reports an error on the email exactly when the email is
    not accepted. *)
Theorem validateForm_spec (m : mode) (f : formData) :
  (snd (validateForm m f) = true ↔
   validateEmail (email f) = true ∧ password f ≠ [] ∧
   (m = signup →
    (8 <= length (password f))%nat ∧ fullName f ≠ [] ∧
    password f = confirmPassword f)) ∧
  (snd (validateForm m f) = true ↔ fst (validateForm m f) = ∅) ∧
  (m = login → dom (fst (validateForm m f)) ⊆ {["email"; "password"]}) ∧
  (fst (validateForm m f) !! "email" = None ↔ validateEmail (email f) = true).
Proof.
  assert (snd (validateForm m f) = true ↔ fst (validateForm m f) = ∅) as Hacc.
  { unfold validateForm. cbv zeta. cbn [fst snd].
    rewrite bool_decide_eq_true. apply map_size_empty_iff. }
  assert (∀ b : bool, negb b = false ↔ b = true) as Hnegb by by intros [].
  assert (blank (email f) = false ∧ validateEmail (email f) = true
          ↔ validateEmail (email f) = true) as Hemail.
  { split; [by intros [_ ?]|]. intros Hv. split; [|done].
    destruct (blank (email f)) eqn:Eb; [|done].
    apply blank_spec in Eb. by apply validateEmail_not_blank in Hv. }
  assert (∀ s : text, blank s = false ↔ s ≠ []) as Hblank by by intros [].
  split_and!; [|done| |].
  - rewrite Hacc. unfold validateForm, validatePassword. cbv zeta. cbn [fst].
    destruct m; cbv iota.
    + rewrite (bool_decide_eq_false_2 (login = signup)) by done.
      rewrite andb_false_l.
      rewrite (check_empty (blank (password f)) false "password"
                 "Password is required" "Password must be at least 8 characters").
      rewrite check_empty, Hnegb, Hblank.
      split; [intros (? & _ & ? & ? & _); split_and!; [done..|intros [=]]|].
      intros (Hv & ? & _). apply Hemail in Hv as [? ?]. done.
    + rewrite (bool_decide_eq_true_2 (signup = signup)) by done.
      rewrite andb_true_l, check_empty.
      rewrite (check_empty (blank (fullName f)) false "fullName"
                 "Full name is required" "Full name is required").
      rewrite !check_empty, !Hnegb, !Hblank, bool_decide_eq_true, Nat.leb_le.
      split.
      * intros (? & ? & ? & _ & ? & ? & ? & ? & _). done.
      * intros (Hv & ? & Hs). destruct (Hs eq_refl) as (? & ? & Heq).
        apply Hemail in Hv as [Hb%Hblank ?]. split_and!; try done; congruence.
  - intros ->. unfold validateForm. cbv zeta. cbn [fst]. cbv iota.
    etransitivity; [apply check_dom|].
    pose proof (check_dom (blank (email f)) (negb (validateEmail (email f)))
                  "email" "Email is required"
                  "Please enter a valid email address" ∅) as Hd.
    rewrite dom_empty_L in Hd. clear -Hd. set_solver.
  - unfold validateForm. cbv zeta. cbn [fst].
    assert (∀ e : gmap string string,
              match m with
              | login => e
              | signup =>
                  if blank (confirmPassword f)
                  then <["confirmPassword":="Please confirm your password"]>
                         (if blank (fullName f)
                          then <["fullName":="Full name is required"]> e else e)
                  else if negb (bool_decide (password f = confirmPassword f))
                  then <["confirmPassword":="Passwords do not match"]>
                         (if blank (fullName f)
                          then <["fullName":="Full name is required"]> e else e)
                  else if blank (fullName f)
                       then <["fullName":="Full name is required"]> e else e
              end !! "email" = e !! "email") as Hthird.
    { intros e. destruct m; [done|].
      rewrite check_lookup_ne by done.
      by rewrite (check_lookup_ne (blank (fullName f)) false "fullName" "email"
                    "Full name is required" "Full name is required"). }
    rewrite Hthird, check_lookup_ne by done.
    rewrite check_lookup_eq by apply lookup_empty.
    by rewrite Hnegb.
Qed.


End AuthModalFacts.

Example validateEmail_samples :
  AuthModal.validateEmail MoreSamples.good_email = true ∧
  AuthModal.validateEmail MoreSamples.bad_email = false ∧
  AuthModal.validateEmail [97; 64; 98; 64; 99; 46; 100]%N = false ∧
  AuthModal.validateEmail [97; 160; 64; 98; 46; 99]%N = false ∧
  AuthModal.validateEmail [97; 64; 98; 46]%N = false ∧
  AuthModal.validateEmail [97; 64; 46; 98; 46; 99]%N = true.
Proof. vm_compute. auto 10. Qed.

Example validateForm_samples :
  AuthModal.validateForm AuthModal.login
    (AuthModal.mk_formData MoreSamples.good_email [112]%N [] [])
  = (∅, true) ∧
  AuthModal.validateForm AuthModal.signup
    (AuthModal.mk_formData MoreSamples.bad_email [112]%N [113]%N [])
  = (<["email" := "Please enter a valid email address"]>
       (<["password" := "Password must be at least 8 characters"]>
          (<["fullName" := "Full name is required"]>
             (<["confirmPassword" := "Passwords do not match"]> ∅))),
     false).
Proof. vm_compute. auto. Qed.

Example handleSubmit_login_timeline :
  flat_map (AuthModal.timeline 0)
    (AuthModal.handleSubmit AuthModal.login
       (AuthModal.mk_formData MoreSamples.good_email [112]%N [] []))
  = [(0%N, AuthModal.preventDefault); (0%N, AuthModal.setErrors ∅);
     (0%N, AuthModal.setIsLoading true);
     (1500%N, AuthModal.setIsLoading false);
     (1500%N, AuthModal.setSuccessMessage "Welcome back!");
     (2500%N, AuthModal.onClose)].
Proof. vm_compute. reflexivity. Qed.
